(** * Automated code review agent: pipeline core and structured extractor

    A shallow embedding of the parts of the review pipeline that the
    specification talks about:

    - [utils/llm_parser.py]   the defensive JSON extractor [safe_parse_json];
    - [utils/git_ops.py]      [is_git_url] and [cleanup_repository];
    - [agents/ingestor.py]    [IngestorAgent.ingest] and [ingestor_node];
    - [agents/security.py], [agents/performance.py], [agents/style.py]
                              [_parse_llm_response] and the three graph nodes;
    - [agents/aggregator.py]  [aggregator_node];
    - [graph/workflow.py]     the gate and the declared graph.

    Python values are modelled by a JSON-like type, dictionaries by [gmap],
    text by [string] whose characters are read as the code points
    U+0000..U+00FF, integer indices by [Z] (with [-1] for "not found"),
    and exceptions by an explicit [outcome] type. *)

From Stdlib Require Import ZArith String Ascii List Bool Lia Permutation DecimalString.
From stdpp Require Import gmap strings list fin_maps.
Import ListNotations.

Set Warnings "-register-all".
Local Open Scope string_scope.
Local Open Scope Z_scope.

(* ===================================================================== *)
(** ** Python values, exceptions *)

Inductive json :=
| JNull
| JBool (b : bool)
| JInt (z : Z)
| JFloat (lexeme : string)
| JStr (s : string)
| JArr (l : list json)
| JObj (m : gmap string json).

Inductive exn_class :=
| JSONDecodeError
| ValueError
| RecursionError
| PermissionError
| GitCommandError
| OtherError.

Record exn := mk_exn { exn_cls : exn_class; exn_msg : string }.

(** The result of running a piece of Python: a value or a raised exception. *)
Inductive outcome (A : Type) :=
| Returned (a : A)
| Raised (e : exn).
Arguments Returned {A} a.
Arguments Raised {A} e.

Definition is_returned {A} (o : outcome A) : bool :=
  match o with Returned _ => true | Raised _ => false end.

(** [str(e)] *)
Definition str_exn (e : exn) : string := exn_msg e.

Definition char_is (c d : ascii) : bool := Ascii.eqb c d.

(** A float lexeme denotes zero when its mantissa has no non-zero digit
    (underflow of a huge negative exponent is not tracked). *)
Fixpoint mantissa_zero (s : string) : bool :=
  match s with
  | EmptyString => true
  | String c r =>
      if char_is c "e" || char_is c "E" then true
      else if char_is c "-" || char_is c "." || char_is c "0" then mantissa_zero r
      else false
  end.

(** Python truthiness: [bool(v)]. *)
Definition truthy (v : json) : bool :=
  match v with
  | JNull => false
  | JBool b => b
  | JInt z => negb (z =? 0)
  | JFloat lx => negb (mantissa_zero lx)
  | JStr s => negb (String.eqb s "")
  | JArr l => match l with [] => false | _ => true end
  | JObj m => negb (bool_decide (m = ∅))
  end.

(** [bool(d.get(k))]: an absent key gives [None], which is falsy. *)
Definition truthy_opt (o : option json) : bool :=
  match o with Some v => truthy v | None => false end.

(** [v == 0] *)
Definition eq_zero (v : json) : bool :=
  match v with
  | JInt z => z =? 0
  | JBool b => negb b
  | JFloat lx => mantissa_zero lx
  | _ => false
  end.

(** [d.get(k, default)] *)
Definition dict_get (d : gmap string json) (k : string) (default : json) : json :=
  match d !! k with Some v => v | None => default end.

(* ===================================================================== *)
(** ** Python string operations *)

Definition dquote : ascii := "034"%char.
Definition dq : string := String dquote EmptyString.

(** [str.isspace] on one character, which is also what [\s] matches and
    what [str.strip()] removes. *)
Definition py_isspace (c : ascii) : bool :=
  let n := N_of_ascii c in
  ((9 <=? n) && (n <=? 13) || (28 <=? n) && (n <=? 32) || (n =? 133) || (n =? 160))%N.

Definition len (s : string) : Z := Z.of_nat (String.length s).

Fixpoint find_from (c : ascii) (s : string) (i : Z) : Z :=
  match s with
  | EmptyString => -1
  | String a r => if char_is a c then i else find_from c r (i + 1)
  end.

(** [s.find(c)] for a one-character needle. *)
Definition py_find (c : ascii) (s : string) : Z := find_from c s 0.

Fixpoint rfind_from (c : ascii) (s : string) (i : Z) : Z :=
  match s with
  | EmptyString => -1
  | String a r =>
      let j := rfind_from c r (i + 1) in
      if j =? -1 then (if char_is a c then i else -1) else j
  end.

(** [s.rfind(c)] *)
Definition py_rfind (c : ascii) (s : string) : Z := rfind_from c s 0.

Fixpoint drop (n : nat) (s : string) : string :=
  match n, s with
  | O, _ => s
  | S n', String _ r => drop n' r
  | S _, EmptyString => EmptyString
  end.

Fixpoint take (n : nat) (s : string) : string :=
  match n, s with
  | S n', String a r => String a (take n' r)
  | _, _ => EmptyString
  end.

(** [s[a:b]] for indices [0 <= a], [0 <= b] (clipped at the end of [s]). *)
Definition slice (s : string) (a b : Z) : string :=
  take (Z.to_nat (b - a)) (drop (Z.to_nat a) s).

(** [s[a:]] for [0 <= a]. *)
Definition slice_from (s : string) (a : Z) : string := drop (Z.to_nat a) s.

Fixpoint lstrip_by (p : ascii -> bool) (s : string) : string :=
  match s with
  | EmptyString => EmptyString
  | String a r => if p a then lstrip_by p r else s
  end.

Fixpoint rstrip_by (p : ascii -> bool) (s : string) : string :=
  match s with
  | EmptyString => EmptyString
  | String a r =>
      match rstrip_by p r with
      | EmptyString => if p a then EmptyString else String a EmptyString
      | r' => String a r'
      end
  end.

(** [s.strip()], [s.rstrip()], [s.rstrip(',')] *)
Definition strip (s : string) : string := rstrip_by py_isspace (lstrip_by py_isspace s).
Definition rstrip (s : string) : string := rstrip_by py_isspace s.
Definition rstrip_char (c : ascii) (s : string) : string := rstrip_by (fun a => char_is a c) s.

(** [s.count(c)] for a one-character needle. *)
Fixpoint count (c : ascii) (s : string) : Z :=
  match s with
  | EmptyString => 0
  | String a r => (if char_is a c then 1 else 0) + count c r
  end.

(** [s.endswith(c)] for a one-character suffix. *)
Fixpoint endswith_char (c : ascii) (s : string) : bool :=
  match s with
  | EmptyString => false
  | String a EmptyString => char_is a c
  | String _ r => endswith_char c r
  end.

(** [c * n] *)
Fixpoint repeat_char (c : ascii) (n : nat) : string :=
  match n with
  | O => EmptyString
  | S n' => String c (repeat_char c n')
  end.

Fixpoint startswith (pre s : string) : bool :=
  match pre, s with
  | EmptyString, _ => true
  | String a p', String b s' => char_is a b && startswith p' s'
  | String _ _, EmptyString => false
  end.

(** The text after the first occurrence of [sub] in [s], if any. *)
Fixpoint after_first (sub s : string) : option string :=
  if startswith sub s then Some (drop (String.length sub) s)
  else match s with
       | EmptyString => None
       | String _ r => after_first sub r
       end.

Definition contains (sub s : string) : bool :=
  match after_first sub s with Some _ => true | None => false end.

(** [''.join(parts)] *)
Definition join (parts : list string) : string :=
  fold_right String.append EmptyString parts.

(** [s.split(c)] for a one-character separator; the list is never
    empty. *)
Fixpoint split (c : ascii) (s : string) : list string :=
  match s with
  | EmptyString => [EmptyString]
  | String a r =>
      if char_is a c then EmptyString :: split c r
      else match split c r with
           | [] => [String a EmptyString]
           | p :: ps => String a p :: ps
           end
  end.

(** [parts[-1]] of the parts of a split. *)
Definition last_part (parts : list string) : string := List.last parts EmptyString.

(* ===================================================================== *)
(** ** [json.loads]: the strict parser of the standard library

    The extractor hands candidate texts to [json.loads].  The parser below
    follows the standard decoder: the scanner tries, in this order, a
    string, an object, an array, [null], [true], [false], a number, and the
    constants [NaN], [Infinity] and [-Infinity]; whitespace is space, tab,
    line feed and carriage return; strings are scanned in strict mode.
    Two exceptions that are no decoding errors leave the decoder: the
    [ValueError] of the conversion of an integer with more digits than
    [sys.get_int_max_str_digits()], and the [RecursionError] of the
    scanner's guard on nested arrays and objects.
    A [\uXXXX] escape above U+00FF has no image in the modelled alphabet
    (the texts of this development hold the code points U+0000..U+00FF
    only) and is rejected. *)

Module Json.

Definition is_ws (c : ascii) : bool :=
  char_is c " " || char_is c "009" || char_is c "010" || char_is c "013".

Definition skip_ws (s : string) : string := lstrip_by is_ws s.

Definition is_digit (c : ascii) : bool :=
  let n := N_of_ascii c in ((48 <=? n) && (n <=? 57))%N.

Definition digit_val (c : ascii) : Z := Z.of_N (N_of_ascii c) - 48.

Definition hex_val (c : ascii) : option Z :=
  let n := Z.of_N (N_of_ascii c) in
  if (48 <=? n) && (n <=? 57) then Some (n - 48)
  else if (65 <=? n) && (n <=? 70) then Some (n - 55)
  else if (97 <=? n) && (n <=? 102) then Some (n - 87)
  else None.

(** The longest run of decimal digits at the head of [s], and the rest. *)
Fixpoint take_digits (s : string) : string * string :=
  match s with
  | EmptyString => (EmptyString, EmptyString)
  | String c r =>
      if is_digit c then let '(d, r') := take_digits r in (String c d, r')
      else (EmptyString, s)
  end.

Fixpoint digits_val (acc : Z) (s : string) : Z :=
  match s with
  | EmptyString => acc
  | String c r => digits_val (10 * acc + digit_val c) r
  end.

(** The sign and integer part of a number: an optional minus, then
    either a single zero or a non-zero digit followed by digits. *)
Definition match_integer (s : string) : option (string * string) :=
  let '(sign, s1) :=
    match s with
    | String c r => if char_is c "-" then ("-", r) else (EmptyString, s)
    | EmptyString => (EmptyString, s)
    end in
  match s1 with
  | String c r =>
      if char_is c "0" then Some (sign ++ "0", r)
      else if is_digit c then
        let '(d, r') := take_digits s1 in Some (sign ++ d, r')
      else None
  | EmptyString => None
  end.

(** The optional fraction: a dot followed by at least one digit. *)
Definition match_frac (s : string) : string * string :=
  match s with
  | String c r =>
      if char_is c "." then
        match take_digits r with
        | (EmptyString, _) => (EmptyString, s)
        | (d, r') => (String c d, r')
        end
      else (EmptyString, s)
  | EmptyString => (EmptyString, s)
  end.

(** The optional exponent: e or E, an optional sign, at least one digit. *)
Definition match_exp (s : string) : string * string :=
  match s with
  | String c r =>
      if char_is c "e" || char_is c "E" then
        let '(sg, r1) :=
          match r with
          | String d r0 =>
              if char_is d "-" || char_is d "+" then (String d EmptyString, r0)
              else (EmptyString, r)
          | EmptyString => (EmptyString, r)
          end in
        match take_digits r1 with
        | (EmptyString, _) => (EmptyString, s)
        | (d, r') => (String c (sg ++ d), r')
        end
      else (EmptyString, s)
  | EmptyString => (EmptyString, s)
  end.

Definition int_of_lexeme (lx : string) : Z :=
  match lx with
  | String c r => if char_is c "-" then - digits_val 0 r else digits_val 0 lx
  | EmptyString => 0
  end.

(** What a step of the scanner gives: a value and the rest of the text;
    no value, which the decoder reports as a decoding error; or an
    exception of another class, which leaves the decoder. *)
Inductive scanned :=
| Scanned (v : json) (rest : string)
| NoValue
| Aborted (e : exn).

(** [sys.get_int_max_str_digits()], as the interpreter starts. *)
Definition int_max_str_digits : Z := 4300.

(** [sys.getrecursionlimit()], as the interpreter starts.  Every array
    and object being scanned holds one level; the levels held by the
    callers of [json.loads] are not deducted. *)
Definition recursion_depth : nat := 1000.

(** [str(n)] *)
Definition decimal (n : Z) : string := NilEmpty.string_of_uint (N.to_uint (Z.to_N n)).

(** The digits of an integer lexeme, its sign apart. *)
Definition digit_count (lx : string) : Z :=
  match lx with
  | String c r => if char_is c "-" then len r else len lx
  | EmptyString => 0
  end.

(** [int(lexeme)] *)
Definition int_of_string (lx : string) : outcome json :=
  if int_max_str_digits <? digit_count lx
  then Raised (mk_exn ValueError
         ("Exceeds the limit (" ++ decimal int_max_str_digits ++
          " digits) for integer string conversion: value has " ++
          decimal (digit_count lx) ++
          " digits; use sys.set_int_max_str_digits() to increase the limit"))
  else Returned (JInt (int_of_lexeme lx)).

Definition match_number (s : string) : scanned :=
  match match_integer s with
  | None => NoValue
  | Some (i, r1) =>
      let '(f, r2) := match_frac r1 in
      let '(e, r3) := match_exp r2 in
      match f, e with
      | EmptyString, EmptyString =>
          match int_of_string i with
          | Returned v => Scanned v r3
          | Raised e => Aborted e
          end
      | _, _ => Scanned (JFloat (i ++ f ++ e)) r3
      end
  end.

Definition literal (word : string) (v : json) (s : string) : scanned :=
  if startswith word s then Scanned v (drop (String.length word) s) else NoValue.

Definition too_deep (what : string) : exn :=
  mk_exn RecursionError
    ("maximum recursion depth exceeded while decoding a JSON " ++ what ++
     " from a unicode string").

(** The body of a string literal after its opening quote (strict mode):
    the decoded text and what follows the closing quote. *)
Fixpoint scanstring (s : string) : option (string * string) :=
  match s with
  | EmptyString => None
  | String c r =>
      if char_is c dquote then Some (EmptyString, r)
      else if char_is c "\" then
        match r with
        | EmptyString => None
        | String e r1 =>
            let simple (d : ascii) :=
              match scanstring r1 with
              | Some (t, r') => Some (String d t, r')
              | None => None
              end in
            if char_is e dquote then simple dquote
            else if char_is e "\" then simple "\"%char
            else if char_is e "/" then simple "/"%char
            else if char_is e "b" then simple "008"%char
            else if char_is e "f" then simple "012"%char
            else if char_is e "n" then simple "010"%char
            else if char_is e "r" then simple "013"%char
            else if char_is e "t" then simple "009"%char
            else if char_is e "u" then
              match r1 with
              | String h1 (String h2 (String h3 (String h4 r2))) =>
                  match hex_val h1, hex_val h2, hex_val h3, hex_val h4 with
                  | Some a, Some b, Some c', Some d =>
                      let u := ((a * 16 + b) * 16 + c') * 16 + d in
                      if u <? 256 then
                        match scanstring r2 with
                        | Some (t, r') => Some (String (ascii_of_N (Z.to_N u)) t, r')
                        | None => None
                        end
                      else None
                  | _, _, _, _ => None
                  end
              | _ => None
              end
            else None
        end
      else if (N_of_ascii c <? 32)%N then None
      else match scanstring r with
           | Some (t, r') => Some (String c t, r')
           | None => None
           end
  end.

(** The scanner, with arrays and objects.  [depth] is the number of
    levels left to the recursion guard: entering an array or an object
    takes one, and with none left the guard raises.  [fuel] makes the
    recursion structural; [loads] supplies two units per input character,
    which is more than a text can use. *)
Fixpoint scan_once (fuel : nat) (depth : nat) (s : string) : scanned :=
  match fuel with
  | O => NoValue
  | S f =>
      match s with
      | EmptyString => NoValue
      | String c r =>
          if char_is c dquote then
            match scanstring r with
            | Some (t, r') => Scanned (JStr t) r'
            | None => NoValue
            end
          else if char_is c "{" then
            match depth with
            | O => Aborted (too_deep "object")
            | S d =>
                let r1 := skip_ws r in
                if startswith "}" r1 then Scanned (JObj ∅) (drop 1 r1)
                else parse_members f d r1 ∅
            end
          else if char_is c "[" then
            match depth with
            | O => Aborted (too_deep "array")
            | S d =>
                let r1 := skip_ws r in
                if startswith "]" r1 then Scanned (JArr []) (drop 1 r1)
                else parse_elems f d r1 []
            end
          else if char_is c "n" then literal "null" JNull s
          else if char_is c "t" then literal "true" (JBool true) s
          else if char_is c "f" then literal "false" (JBool false) s
          else
            match match_number s with
            | Scanned v r' => Scanned v r'
            | Aborted e => Aborted e
            | NoValue =>
                if char_is c "N" then literal "NaN" (JFloat "NaN") s
                else if char_is c "I" then literal "Infinity" (JFloat "Infinity") s
                else if char_is c "-" then literal "-Infinity" (JFloat "-Infinity") s
                else NoValue
            end
      end
  end
with parse_elems (fuel : nat) (depth : nat) (s : string) (acc : list json) : scanned :=
  match fuel with
  | O => NoValue
  | S f =>
      match scan_once f depth s with
      | NoValue => NoValue
      | Aborted e => Aborted e
      | Scanned v r =>
          let r1 := skip_ws r in
          if startswith "]" r1 then Scanned (JArr (rev (v :: acc))) (drop 1 r1)
          else if startswith "," r1 then parse_elems f depth (skip_ws (drop 1 r1)) (v :: acc)
          else NoValue
      end
  end
with parse_members (fuel : nat) (depth : nat) (s : string) (acc : gmap string json)
  : scanned :=
  match fuel with
  | O => NoValue
  | S f =>
      match s with
      | EmptyString => NoValue
      | String c r =>
          if char_is c dquote then
            match scanstring r with
            | None => NoValue
            | Some (key, r0) =>
                let r1 := skip_ws r0 in
                if startswith ":" r1 then
                  match scan_once f depth (skip_ws (drop 1 r1)) with
                  | NoValue => NoValue
                  | Aborted e => Aborted e
                  | Scanned v r2 =>
                      let acc' := <[key := v]> acc in
                      let r3 := skip_ws r2 in
                      if startswith "}" r3 then Scanned (JObj acc') (drop 1 r3)
                      else if startswith "," r3
                           then parse_members f depth (skip_ws (drop 1 r3)) acc'
                      else NoValue
                  end
                else NoValue
            end
          else NoValue
      end
  end.

(** [json.loads(s)]: leading whitespace, one value, trailing whitespace,
    nothing else; any other text raises [JSONDecodeError], unless the
    scanner was left by another exception, which [loads] passes on. *)
Definition loads (s : string) : outcome json :=
  match scan_once (2 * String.length s + 2) recursion_depth (skip_ws s) with
  | Scanned v r =>
      match skip_ws r with
      | EmptyString => Returned v
      | _ => Raised (mk_exn JSONDecodeError "Extra data")
      end
  | NoValue => Raised (mk_exn JSONDecodeError "Expecting value")
  | Aborted e => Raised e
  end.

End Json.

(* ===================================================================== *)
(** ** [utils/llm_parser.py]: the structured extractor *)

(** The [text] argument: a string, or the list of parts some providers
    return. *)
Inductive llm_text :=
| TextStr (s : string)
| TextParts (parts : list string).

(** The [expected_type] argument: [list], [dict], or any other type, given
    by the instance its constructor returns. *)
Inductive expected :=
| PyList
| PyDict
| PyOther (inst : json).

(** [expected_type()] *)
Definition empty_instance (t : expected) : json :=
  match t with
  | PyList => JArr []
  | PyDict => JObj ∅
  | PyOther inst => inst
  end.

(** [not text] *)
Definition text_is_empty (t : llm_text) : bool :=
  match t with
  | TextStr s => String.eqb s ""
  | TextParts l => match l with [] => true | _ => false end
  end.

Definition text_of (t : llm_text) : string :=
  match t with
  | TextStr s => s
  | TextParts l => join l
  end.

Definition fence : string := "```".
Definition json_fence : string := "```json".

(** The lazy group of a fence pattern: the shortest text after which
    optional whitespace and the closing fence follow. *)
Fixpoint lazy_group (s : string) : option string :=
  if startswith fence (lstrip_by py_isspace s) then Some EmptyString
  else match s with
       | EmptyString => None
       | String a r =>
           match lazy_group r with
           | Some g => Some (String a g)
           | None => None
           end
       end.

(** [re.search(opener + r'\s*(.*?)\s*```', text, re.DOTALL)], giving
    [group(1)]: the leftmost opener, all the whitespace after it, then the
    lazy group. *)
Definition search_fence (opener text : string) : option string :=
  match after_first opener text with
  | None => None
  | Some r => lazy_group (lstrip_by py_isspace r)
  end.

(** Step 1 of [safe_parse_json]: the candidate [json_str]. *)
Definition locate_candidate (text : string) (expected_type : expected) : string :=
  match search_fence json_fence text with
  | Some g => strip g
  | None =>
      match search_fence fence text with
      | Some g => strip g
      | None =>
          let start_idx :=
            match expected_type with
            | PyList => py_find "[" text
            | PyDict => py_find "{" text
            | PyOther _ =>
                let start_list := py_find "[" text in
                let start_dict := py_find "{" text in
                if negb (start_list =? -1) && ((start_dict =? -1) || (start_list <? start_dict))
                then start_list else start_dict
            end in
          if negb (start_idx =? -1) then
            let end_idx :=
              match expected_type with
              | PyList => py_rfind "]" text
              | PyDict => py_rfind "}" text
              | PyOther _ => Z.max (py_rfind "]" text) (py_rfind "}" text)
              end in
            if negb (end_idx =? -1) && (start_idx <? end_idx)
            then strip (slice text start_idx (end_idx + 1))
            else strip (slice_from text start_idx)
          else strip text
      end
  end.

(** The deficit of closing braces appended by the repair. *)
Definition close_deficit (temp_str : string) : string :=
  let open_braces := count "{" temp_str in
  let close_braces := count "}" temp_str in
  if close_braces <? open_braces
  then temp_str ++ repeat_char "}" (Z.to_nat (open_braces - close_braces))
  else temp_str.

(** Step 4: the repaired text handed to the second [json.loads], when a
    repair is attempted at all. *)
Definition repair (expected_type : expected) (json_str : string) : option string :=
  match expected_type with
  | PyList =>
      if negb (endswith_char "]" json_str)
      then Some (close_deficit (rstrip_char "," (rstrip json_str)) ++ "]")
      else None
  | PyDict =>
      if negb (endswith_char "}" json_str)
      then Some (close_deficit (rstrip_char "," (rstrip json_str)))
      else None
  | PyOther _ => None
  end.

(** [safe_parse_json], instrumented: the first component lists, in order,
    the texts handed to [json.loads]. *)
Definition safe_parse_json_trace (text : llm_text) (expected_type : expected)
  : list string * outcome json :=
  if text_is_empty text then ([], Returned (empty_instance expected_type))
  else
    let json_str := locate_candidate (text_of text) expected_type in
    if String.eqb json_str "" then ([], Returned (empty_instance expected_type))
    else
      match Json.loads json_str with
      | Returned v => ([json_str], Returned v)
      | Raised e =>
          match exn_cls e with
          | JSONDecodeError =>
              match repair expected_type json_str with
              | Some temp_str =>
                  match Json.loads temp_str with
                  | Returned v => ([json_str; temp_str], Returned v)
                  | Raised _ => ([json_str; temp_str], Returned (empty_instance expected_type))
                  end
              | None => ([json_str], Returned (empty_instance expected_type))
              end
          | _ => ([json_str], Raised e)
          end
      end.

Definition safe_parse_json (text : llm_text) (expected_type : expected) : outcome json :=
  snd (safe_parse_json_trace text expected_type).

(* ===================================================================== *)
(** ** [_parse_llm_response] of the three analysis agents *)

(** [findings = [findings] if findings else []] for a non-list result. *)
Definition as_finding_list (v : json) : list json :=
  match v with
  | JArr l => l
  | _ => if truthy v then [v] else []
  end.

(** The validation loop: elements that are not dictionaries are skipped
    by [continue], the others are rebuilt by [validated]. *)
Fixpoint validate_all (validated : gmap string json -> gmap string json)
  (findings : list json) : list json :=
  match findings with
  | [] => []
  | JObj d :: rest => JObj (validated d) :: validate_all validated rest
  | _ :: rest => validate_all validated rest
  end.

Definition parse_with (validated : gmap string json -> gmap string json)
  (response : llm_text) : outcome (list json) :=
  match safe_parse_json response PyList with
  | Raised e => Raised e
  | Returned findings => Returned (validate_all validated (as_finding_list findings))
  end.

Module SecurityAgent.

Definition validated_finding (file_path : string) (finding : gmap string json)
  : gmap string json :=
  <["file" := dict_get finding "file" (JStr file_path)]>
  (<["line" := dict_get finding "line" (JInt 0)]>
  (<["severity" := dict_get finding "severity" (JStr "MEDIUM")]>
  (<["confidence" := dict_get finding "confidence" (JStr "MEDIUM")]>
  (<["issue_type" := dict_get finding "issue_type" (JStr "SECURITY_ISSUE")]>
  (<["description" := dict_get finding "description" (JStr "")]>
  (<["recommendation" := dict_get finding "recommendation" (JStr "")]>
  (<["cwe_id" := dict_get finding "cwe_id" JNull]>
  (<["owasp_category" := dict_get finding "owasp_category" JNull]> ∅)))))))).

Definition _parse_llm_response (response : llm_text) (file_path : string)
  : outcome (list json) :=
  parse_with (validated_finding file_path) response.

End SecurityAgent.

Module PerformanceAgent.

Definition validated_finding (file_path : string) (finding : gmap string json)
  : gmap string json :=
  <["file" := dict_get finding "file" (JStr file_path)]>
  (<["line" := dict_get finding "line" JNull]>
  (<["issue_type" := dict_get finding "issue_type" (JStr "PERFORMANCE_ISSUE")]>
  (<["description" := dict_get finding "description" (JStr "")]>
  (<["complexity_score" := dict_get finding "complexity_score" JNull]>
  (<["impact" := dict_get finding "impact" (JStr "MEDIUM")]>
  (<["current_complexity" := dict_get finding "current_complexity" JNull]>
  (<["optimized_complexity" := dict_get finding "optimized_complexity" JNull]>
  (<["recommendation" := dict_get finding "recommendation" (JStr "")]>
  (<["estimated_improvement" := dict_get finding "estimated_improvement" JNull]> ∅))))))))).

Definition _parse_llm_response (response : llm_text) (file_path : string)
  : outcome (list json) :=
  parse_with (validated_finding file_path) response.

End PerformanceAgent.

Module StyleAgent.

Definition validated_finding (file_path : string) (finding : gmap string json)
  : gmap string json :=
  <["file" := dict_get finding "file" (JStr file_path)]>
  (<["line" := dict_get finding "line" JNull]>
  (<["issue_type" := dict_get finding "issue_type" (JStr "STYLE_ISSUE")]>
  (<["description" := dict_get finding "description" (JStr "")]>
  (<["severity" := dict_get finding "severity" (JStr "MEDIUM")]>
  (<["recommendation" := dict_get finding "recommendation" (JStr "")]>
  (<["principle_violated" := dict_get finding "principle_violated" JNull]>
  (<["impact_on_maintainability" := dict_get finding "impact_on_maintainability" (JStr "")]> ∅))))))).

Definition _parse_llm_response (response : llm_text) (file_path : string)
  : outcome (list json) :=
  parse_with (validated_finding file_path) response.

End StyleAgent.

(* ===================================================================== *)
(** ** The environment of a run

    What the pipeline obtains from outside: the URL parser, the temporary
    directory, git, the directory scanner, the three analysers (agent
    construction and [analyze_directory], which call the static tools and
    the text producer) and the report writer. *)

Inductive node := Ingestor | Security | Performance | Style | Aggregator.

Global Instance node_eq_dec : EqDecision node.
Proof. solve_decision. Defined.

Record scan_result := mk_scan {
  scan_files : list json;
  scan_total_size_mb : json;
  scan_extensions : json
}.

Record Env := mk_env {
  (** [urlparse(path)]: the scheme and the netloc, or a raised error *)
  urlparse : string -> outcome (string * string);
  (** [tempfile.gettempdir()] *)
  gettempdir : string;
  (** the directory made by [tempfile.mkdtemp(prefix="code_review_")] *)
  mkdtemp : string;
  (** [Repo.clone_from(url, dir)] and the reading of branch and commit *)
  clone_from : string -> string -> outcome unit;
  (** [str(Path(p).resolve())] *)
  resolve : string -> string;
  (** the walk of [scan_local_directory] over a resolved directory *)
  scan_walk : string -> outcome scan_result;
  (** agent construction and [analyze_directory(working_dir, file_list)] *)
  analyze_directory : node -> json -> json -> outcome (list json);
  (** [AggregatorAgent().generate_report(state, output_dir)] *)
  generate_report : gmap string json -> json -> outcome (string * string);
  (** the error [Path(p).exists()] raises instead of answering, if any
      (a [PermissionError] of the underlying [stat]) *)
  exists_raises : string -> option exn;
  (** whether the path is a directory, and no symbolic link to one *)
  is_directory : string -> bool;
  (** whether the removal of the entry fails, an error that
      [shutil.rmtree] is told to ignore *)
  removal_fails : string -> bool;
  (** whether the dictionary handed to a routing function is the run's
      record itself, so that an assignment made by the function stays, or
      a copy of it; this is the graph library's business *)
  router_shares_record : bool
}.

(** What a run does to the outside, in order. [EvRelease d] is a call of
    [cleanup_repository(d)]; [EvRmtree d] a direct [shutil.rmtree(d)]. *)
Inductive event :=
| EvStage (n : node)
| EvClone (url dir : string)
| EvScan (dir : string)
| EvRmtree (dir : string)
| EvRelease (dir : string).

(* ===================================================================== *)
(** ** [utils/git_ops.py] *)

Definition lower_char (c : ascii) : ascii :=
  let n := N_of_ascii c in
  if ((65 <=? n) && (n <=? 90))%N then ascii_of_N (n + 32) else c.

Fixpoint lower (s : string) : string :=
  match s with
  | EmptyString => EmptyString
  | String c r => String (lower_char c) (lower r)
  end.

(** [s.endswith(suf)] *)
Fixpoint endswith (suf s : string) : bool :=
  String.eqb suf s ||
  match s with
  | EmptyString => false
  | String _ r => endswith suf r
  end.

Definition newline : string := String "010"%char EmptyString.

(** The entries of [git_patterns]: a pattern anchored at the start, given
    by the texts it stands for in lower case, and the pattern [\.git$]. *)
Inductive git_pattern :=
| AtStart (alternatives : list string)
| DotGitAtEnd.

Definition git_patterns : list git_pattern :=
  [ AtStart ["http://github.com/"; "https://github.com/"];
    AtStart ["http://gitlab.com/"; "https://gitlab.com/"];
    AtStart ["http://bitbucket.org/"; "https://bitbucket.org/"];
    AtStart ["git@github.com:"];
    AtStart ["git@gitlab.com:"];
    AtStart ["git@bitbucket.org:"];
    DotGitAtEnd ].

(** [re.search(pattern, path, re.IGNORECASE)]; the dollar sign matches at
    the end of the text and before a line feed that ends the text. *)
Definition re_search_ci (p : git_pattern) (path : string) : bool :=
  match p with
  | AtStart alts => existsb (fun a => startswith a (lower path)) alts
  | DotGitAtEnd => endswith ".git" (lower path) || endswith (".git" ++ newline) (lower path)
  end.

Definition is_git_url (E : Env) (path : string) : bool :=
  if existsb (fun p => re_search_ci p path) git_patterns then true
  else
    match urlparse E path with
    | Returned (scheme, netloc) => negb (String.eqb scheme "") && negb (String.eqb netloc "")
    | Raised _ => false
    end.

Definition clone_repository (E : Env) (repo_url : string)
  : outcome (string * bool) * list event :=
  if negb (is_git_url E repo_url)
  then (Raised (mk_exn ValueError ("Invalid Git repository URL: " ++ repo_url)), [])
  else
    let target_dir := mkdtemp E in
    match clone_from E repo_url target_dir with
    | Returned _ => (Returned (target_dir, true), [EvClone repo_url target_dir])
    | Raised e =>
        match exn_cls e with
        | GitCommandError => (Raised e, [EvClone repo_url target_dir; EvRmtree target_dir])
        | _ => (Raised e, [EvClone repo_url target_dir])
        end
    end.

(** The file system as the set of paths that exist; which of them are
    directories and which removals fail is the environment's. *)
Definition under (root p : string) : bool :=
  String.eqb p root || startswith (root ++ "/") p.

(** An entry of a tree being removed stays when its removal fails, and so
    does every directory above an entry that stays. *)
Definition stays (E : Env) (files : gset string) (q : string) : bool :=
  existsb (fun r => under q r && removal_fails E r) (elements files).

(** [shutil.rmtree(p, ignore_errors=True)]: on a path that is no
    directory (a regular file, a symbolic link) the error is ignored and
    nothing is removed; of a directory, every entry is removed that can
    be. *)
Definition rmtree (E : Env) (files : gset string) (p : string) : gset string :=
  if is_directory E p
  then filter (fun q => negb (under p q) || stays E files q = true) files
  else files.

Inductive level := INFO | WARNING | ERROR.

(** [cleanup_repository(repo_path, force)]: the file system afterwards
    and the levels of the messages logged.  The test [repo_path.exists()]
    stands outside the [try]: an error it raises leaves the function. *)
Definition cleanup_repository (E : Env) (files : gset string) (repo_path : string)
  (force : bool) : outcome (gset string) * list level :=
  match exists_raises E repo_path with
  | Some e => (Raised e, [])
  | None =>
      if negb (bool_decide (repo_path ∈ files)) then (Returned files, [WARNING])
      else
        let is_temp := startswith (gettempdir E) repo_path in
        if negb is_temp && negb force then (Returned files, [WARNING])
        else (Returned (rmtree E files repo_path), [INFO; INFO])
  end.

(** [extract_repo_name(repo_url)]: [url[:-4]] is taken only of a text
    that ends with the four characters of [.git]. *)
Definition extract_repo_name (repo_url : string) : string :=
  let url := rstrip_char "/" repo_url in
  let url := if endswith ".git" url then slice url 0 (len url - 4) else url in
  let parts := split "/" url in
  let repo_name := last_part parts in
  let repo_name :=
    if contains ":" repo_name then last_part (split ":" repo_name) else repo_name in
  if String.eqb repo_name "" then "unknown_repo" else repo_name.

(* ===================================================================== *)
(** ** [utils/file_scanner.py]: the shape of the inventory *)

(** The dictionary [scan_local_directory] returns. *)
Definition file_tree_of (directory : string) (r : scan_result) : gmap string json :=
  <["root_path" := JStr directory]>
  (<["files" := JArr (scan_files r)]>
  (<["total_files" := JInt (Z.of_nat (List.length (scan_files r)))]>
  (<["total_size_mb" := scan_total_size_mb r]>
  (<["extensions" := scan_extensions r]> ∅)))).

Definition scan_local_directory (E : Env) (directory_path : string) : outcome json :=
  let directory := resolve E directory_path in
  match scan_walk E directory with
  | Raised e => Raised e
  | Returned r => Returned (JObj (file_tree_of directory r))
  end.

(* ===================================================================== *)
(** ** [agents/ingestor.py] *)

Module IngestorAgent.

Record IngestionResult := mk_result {
  success : bool;
  source_type : string;
  source_path : string;
  working_directory : string;
  file_tree : json;
  is_temp : bool;
  error : json
}.

(** [list.remove(x)] *)
Fixpoint remove_first (x : string) (l : list string) : list string :=
  match l with
  | [] => []
  | y :: r => if String.eqb x y then r else y :: remove_first x r
  end.

(** The methods thread [self.temp_directories] and the events. *)
Definition _ingest_git_repository (E : Env) (temp_directories : list string)
  (repo_url : string) : outcome IngestionResult * list string * list event :=
  match clone_repository E repo_url with
  | (Raised e, ev) => (Raised e, temp_directories, ev)
  | (Returned (clone_path, is_temp), ev) =>
      let temps := if is_temp then (temp_directories ++ [clone_path])%list else temp_directories in
      match scan_local_directory E clone_path with
      | Returned ft =>
          (Returned (mk_result true "git" repo_url clone_path ft is_temp JNull),
           temps, (ev ++ [EvScan clone_path])%list)
      | Raised e =>
          if is_temp
          then (Raised e, remove_first clone_path temps,
                (ev ++ [EvScan clone_path; EvRelease clone_path])%list)
          else (Raised e, temps, (ev ++ [EvScan clone_path])%list)
      end
  end.

Definition _ingest_local_directory (E : Env) (temp_directories : list string)
  (directory_path : string) : outcome IngestionResult * list string * list event :=
  let path := resolve E directory_path in
  match scan_local_directory E path with
  | Returned ft =>
      (Returned (mk_result true "local" directory_path path ft false JNull),
       temp_directories, [EvScan path])
  | Raised e => (Raised e, temp_directories, [EvScan path])
  end.

Definition ingest (E : Env) (temp_directories : list string) (input_path : string)
  : IngestionResult * list string * list event :=
  let '(r, temps, ev) :=
    if is_git_url E input_path
    then _ingest_git_repository E temp_directories input_path
    else _ingest_local_directory E temp_directories input_path in
  match r with
  | Returned result => (result, temps, ev)
  | Raised e =>
      (mk_result false "unknown" input_path "" (JObj ∅) false (JStr (str_exn e)), temps, ev)
  end.

(** [cleanup()]: one [cleanup_repository] per tracked directory. *)
Definition cleanup (temp_directories : list string) : list event :=
  map EvRelease temp_directories.

End IngestorAgent.

(** The review record: a dictionary from keys to values. *)
Abbreviation State := (gmap string json).

(** [ingestor_node(state)]: the returned dictionary and the events.  On
    success the tracked directories are forgotten, not released. *)
Definition ingestor_node (E : Env) (state : State) : State * list event :=
  let failed (msg : json) : State :=
    <["error" := msg]> (<["file_tree" := JObj ∅]> (<["total_files" := JInt 0]> state)) in
  if negb (truthy_opt (state !! "input_path"))
  then (failed (JStr "No input_path provided in state"), [])
  else
    match state !! "input_path" with
    | Some (JStr input_path) =>
        let '(result, temps, ev) := IngestorAgent.ingest E [] input_path in
        if negb (IngestorAgent.success result)
        then (failed (IngestorAgent.error result), (ev ++ IngestorAgent.cleanup temps)%list)
        else
          match IngestorAgent.file_tree result with
          | JObj ft =>
              match ft !! "total_files" with
              | Some total =>
                  (<["file_tree" := JObj ft]>
                   (<["total_files" := total]>
                   (<["working_directory" := JStr (IngestorAgent.working_directory result)]>
                   (<["source_type" := JStr (IngestorAgent.source_type result)]>
                   (<["is_temp_directory" := JBool (IngestorAgent.is_temp result)]> state)))),
                   ev)
              | None =>
                  (failed (JStr "'total_files'"), (ev ++ IngestorAgent.cleanup temps)%list)
              end
          | _ =>
              (failed (JStr "object is not subscriptable"),
               (ev ++ IngestorAgent.cleanup temps)%list)
          end
    | _ => (failed (JStr "expected string or bytes-like object"), [])
    end.

(* ===================================================================== *)
(** ** The analysis nodes and the aggregator node *)

(** [state.get('file_tree', {}).get('files', [])]; a value without [get]
    raises. *)
Definition get_file_list (state : State) : outcome json :=
  match state !! "file_tree" with
  | None => Returned (JArr [])
  | Some (JObj ft) => Returned (dict_get ft "files" (JArr []))
  | Some _ => Raised (mk_exn OtherError "object has no attribute 'get'")
  end.

(** [warnings = state.get('warnings', []); warnings.append(msg)]: the list
    returned, and the record afterwards.  When the record holds a list it
    is that very list which grows; otherwise a fresh list is used and the
    record is unchanged. *)
Definition append_warning (state : State) (msg : string) : outcome (json * State) :=
  match state !! "warnings" with
  | None => Returned (JArr [JStr msg], state)
  | Some (JArr l) =>
      let w := JArr (l ++ [JStr msg])%list in
      Returned (w, <["warnings" := w]> state)
  | Some _ => Raised (mk_exn OtherError "object has no attribute 'append'")
  end.

(** The common shape of the three analysis nodes.  [skipped] is what the
    node returns on its three early exits. The result is the returned
    dictionary (or the exception that escapes) and the record as the node
    leaves it. *)
Definition branch_node (E : Env) (n : node) (key label : string)
  (skipped : State -> State) (state : State) : outcome State * State :=
  if truthy_opt (state !! "error") then (Returned (skipped state), state)
  else if negb (truthy_opt (state !! "working_directory")) then (Returned (skipped state), state)
  else
    match get_file_list state with
    | Raised e => (Raised e, state)
    | Returned file_list =>
        if negb (truthy file_list) then (Returned (skipped state), state)
        else
          match analyze_directory E n (dict_get state "working_directory" JNull) file_list with
          | Returned findings => (Returned {[key := JArr findings]}, state)
          | Raised e =>
              match append_warning state (label ++ str_exn e) with
              | Returned (w, state') =>
                  (Returned (<[key := JArr []]> {["warnings" := w]}), state')
              | Raised e' => (Raised e', state)
              end
          end
    end.

(** [security_node] returns the whole record on its early exits. *)
Definition security_node (E : Env) (state : State) : outcome State * State :=
  branch_node E Security "security_findings" "Security analysis failed: "
    (fun st => <["security_findings" := JArr []]> st) state.

Definition performance_node (E : Env) (state : State) : outcome State * State :=
  branch_node E Performance "performance_findings" "Performance analysis failed: "
    (fun _ => {["performance_findings" := JArr []]}) state.

Definition style_node (E : Env) (state : State) : outcome State * State :=
  branch_node E Style "style_findings" "Style analysis failed: "
    (fun _ => {["style_findings" := JArr []]}) state.

Definition aggregator_node (E : Env) (state : State) : State :=
  if truthy_opt (state !! "error") then state
  else
    let output_dir := dict_get state "output_dir" (JStr "./code_reviews") in
    match generate_report E state output_dir with
    | Returned (report_content, report_path) =>
        <["final_report" := JStr report_content]> (<["report_path" := JStr report_path]> state)
    | Raised e =>
        <["error" := JStr ("Report generation failed: " ++ str_exn e)]> state
    end.

(* ===================================================================== *)
(** ** [graph/workflow.py] *)

Inductive route := Continue | End.

(** [should_continue_to_agents(state)]: the label returned and the
    dictionary it was given, as the function leaves it. *)
Definition should_continue_to_agents (state : State) : route * State :=
  if truthy_opt (state !! "error") then (End, state)
  else
    let total_files := dict_get state "total_files" (JInt 0) in
    if eq_zero total_files
    then (End, <["error" := JStr "No files found to analyze"]> state)
    else (Continue, state).

Inductive target := To (n : node) | END.

Global Instance target_eq_dec : EqDecision target.
Proof. solve_decision. Defined.

Record graph := mk_graph {
  nodes : list node;
  entry_point : node;
  conditional_edges : list (node * (State -> route * State) * (route -> target));
  edges : list (node * target)
}.

(** The graph as [create_review_graph] declares it. *)
Definition create_review_graph : graph :=
  mk_graph
    [Ingestor; Security; Performance; Style; Aggregator]
    Ingestor
    [ (Ingestor, should_continue_to_agents,
       fun r => match r with Continue => To Security | End => END end) ]
    [ (Ingestor, To Performance);
      (Ingestor, To Style);
      (Security, To Aggregator);
      (Performance, To Aggregator);
      (Style, To Aggregator);
      (Aggregator, END) ].

(** The initial state built by [main]. *)
Definition initial_state (path output : string) : State :=
  <["input_path" := JStr path]> {["output_dir" := JStr output]}.

(* ===================================================================== *)
(** ** The shared state store and the executor *)

(** Modelled from the spec: the declaration of the review record and of
    its reducers ([graph/state.py]) is not among the sources.  Section 4.1
    has every stage declare the keys it may write; these are the keys each
    node of the source assigns. *)
Definition write_keys (n : node) : list string :=
  match n with
  | Ingestor =>
      ["error"; "file_tree"; "total_files"; "working_directory"; "source_type";
       "is_temp_directory"]
  | Security => ["security_findings"; "warnings"]
  | Performance => ["performance_findings"; "warnings"]
  | Style => ["style_findings"; "warnings"]
  | Aggregator => ["final_report"; "report_path"; "error"]
  end.

Definition permitted (n : node) (upd : State) : State :=
  filter (fun kv => kv.1 ∈ write_keys n) upd.

Definition as_list (v : json) : list json :=
  match v with JArr l => l | _ => [v] end.

Definition warnings_of (st : State) : list json :=
  match st !! "warnings" with Some w => as_list w | None => [] end.

(** Modelled from the spec: [apply(partialUpdate)] of section 4.1, in its
    lenient mode.  Writes outside the declared keys are ignored, a declared
    key is overwritten, and the [warnings] key is appended to. *)
Definition apply_update (st : State) (nu : node * State) : State :=
  let upd := permitted nu.1 nu.2 in
  let st' := delete "warnings" upd ∪ st in
  match upd !! "warnings" with
  | Some w => <["warnings" := JArr (warnings_of st ++ as_list w)%list]> st'
  | None => st'
  end.

(** The merge at the barrier, in the order of the list. *)
Definition merge_all (st : State) (updates : list (node * State)) : State :=
  fold_left apply_update updates st.

(** The node functions registered by [add_node]. *)
Definition node_fn (E : Env) (n : node) (snap : State)
  : outcome State * State * list event :=
  match n with
  | Ingestor => let '(u, ev) := ingestor_node E snap in (Returned u, snap, ev)
  | Security => let '(u, s) := security_node E snap in (u, s, [])
  | Performance => let '(u, s) := performance_node E snap in (u, s, [])
  | Style => let '(u, s) := style_node E snap in (u, s, [])
  | Aggregator => (Returned (aggregator_node E snap), snap, [])
  end.

(** The nodes of one step.  They read the same record; their returned
    dictionaries are collected for the merge. *)
Fixpoint run_nodes (E : Env) (active : list node) (snap : State)
  : outcome (list (node * State)) * State * list event :=
  match active with
  | [] => (Returned [], snap, [])
  | n :: rest =>
      let '(u, snap1, ev) := node_fn E n snap in
      match u with
      | Raised e => (Raised e, snap1, EvStage n :: ev)
      | Returned upd =>
          let '(r, snap2, ev2) := run_nodes E rest snap1 in
          (match r with
           | Returned l => Returned ((n, upd) :: l)
           | Raised e => Raised e
           end, snap2, (EvStage n :: ev ++ ev2)%list)
      end
  end.

(** The conditional edges leaving the nodes that just ran. *)
Definition route_step (E : Env) (g : graph) (active : list node) (st : State)
  : list target * State :=
  fold_left
    (fun acc ce =>
       let '(ts, s) := acc in
       let '(src, router, path_map) := ce in
       if bool_decide (src ∈ active) then
         let '(r, s') := router s in
         ((ts ++ [path_map r])%list, if router_shares_record E then s' else s)
       else (ts, s))
    (conditional_edges g) ([], st).

Definition static_targets (g : graph) (active : list node) : list target :=
  map snd (filter (fun e => e.1 ∈ active) (edges g)).

(** The names given to [add_node]. *)
Definition node_name (n : node) : string :=
  match n with
  | Ingestor => "ingestor"
  | Security => "security"
  | Performance => "performance"
  | Style => "style"
  | Aggregator => "aggregator"
  end.

Fixpoint insert_by_name (n : node) (l : list node) : list node :=
  match l with
  | [] => [n]
  | m :: r =>
      if String.leb (node_name n) (node_name m) then n :: l
      else m :: insert_by_name n r
  end.

(** [sorted(names)] *)
Definition sorted_by_name (l : list node) : list node :=
  fold_right insert_by_name [] l.

(** The nodes of the next step: those at the end of an edge taken, which
    the graph library takes in the order of their names. *)
Definition next_nodes (g : graph) (ts : list target) : list node :=
  sorted_by_name (filter (fun n => To n ∈ ts) (nodes g)).

Definition recursion_limit : nat := 25.

(** The execution of a compiled graph: in every step the active nodes run
    on the same record, their dictionaries are merged, and the nodes at the
    end of an edge leaving an active node are active in the next step. *)
Fixpoint supersteps (fuel : nat) (E : Env) (g : graph) (active : list node) (st : State)
  : outcome State * list event :=
  match active with
  | [] => (Returned st, [])
  | _ :: _ =>
      match fuel with
      | O => (Raised (mk_exn OtherError "GraphRecursionError"), [])
      | S f =>
          let '(r, snap, ev) := run_nodes E active st in
          match r with
          | Raised e => (Raised e, ev)
          | Returned upds =>
              let merged := merge_all snap upds in
              let '(ts, st') := route_step E g active merged in
              let '(res, ev') :=
                supersteps f E g (next_nodes g (ts ++ static_targets g active)%list) st' in
              (res, (ev ++ ev')%list)
          end
      end
  end.

(** [graph.invoke(initial_state)] *)
Definition invoke (E : Env) (g : graph) (input : State) : outcome State * list event :=
  supersteps recursion_limit E g [entry_point g] input.

(** The stages that ran, in order. *)
Fixpoint stages (evs : list event) : list node :=
  match evs with
  | [] => []
  | EvStage n :: r => n :: stages r
  | _ :: r => stages r
  end.

(** The working directories released through [cleanup_repository]. *)
Fixpoint releases (evs : list event) : list string :=
  match evs with
  | [] => []
  | EvRelease d :: r => d :: releases r
  | _ :: r => releases r
  end.

(* ===================================================================== *)
(** ** Vocabulary of the statements *)

(** The three analysis branches, in the order in which a step runs
    them. *)
Definition branches : list node := [Performance; Security; Style].

(** The key a branch owns, and the head of its failure warning. *)
Definition findings_key (n : node) : string :=
  match n with
  | Security => "security_findings"
  | Performance => "performance_findings"
  | Style => "style_findings"
  | _ => ""
  end.



(** The record after the ingestion step of a run. *)
Definition after_ingestion (E : Env) (input : State) : State :=
  apply_update input (Ingestor, fst (ingestor_node E input)).

(** The record the analysis branches read: the record after ingestion, as
    the gate leaves it. *)
Definition after_gate (E : Env) (input : State) : State :=
  let st := after_ingestion E input in
  if router_shares_record E then snd (should_continue_to_agents st) else st.


(** A text that starts with the opening bracket of the expected shape and
    ends with its closing bracket. *)
Definition well_bracketed (t : expected) (s : string) : bool :=
  match t with
  | PyList => startswith "[" s && endswith_char "]" s
  | PyDict => startswith "{" s && endswith_char "}" s
  | PyOther _ => false
  end.

(** The dictionaries among the elements of a parsed list, in order. *)
Fixpoint dicts_of (l : list json) : list (gmap string json) :=
  match l with
  | [] => []
  | JObj d :: r => d :: dicts_of r
  | _ :: r => dicts_of r
  end.

(** A path lies in a directory when it is the directory or is below it. *)
Definition resides_under (root p : string) : bool := under root p.

(** The nodes that run after ingestion, by the label of the gate. *)
Definition branches_for (r : route) : list node :=
  match r with
  | Continue => [Performance; Security; Style]
  | End => [Performance; Style]
  end.


(** Ingestion went the way of the remote clone. *)
Definition clones (evs : list event) : bool :=
  match evs with EvClone _ _ :: _ => true | _ => false end.

(** The three kinds of finding, their validation and their defaults for
    the required fields. *)
Inductive category := SecurityFinding | PerformanceFinding | StyleFinding.

Definition validated_by (c : category) : string -> gmap string json -> gmap string json :=
  match c with
  | SecurityFinding => SecurityAgent.validated_finding
  | PerformanceFinding => PerformanceAgent.validated_finding
  | StyleFinding => StyleAgent.validated_finding
  end.

Definition parse_by (c : category) : llm_text -> string -> outcome (list json) :=
  match c with
  | SecurityFinding => SecurityAgent._parse_llm_response
  | PerformanceFinding => PerformanceAgent._parse_llm_response
  | StyleFinding => StyleAgent._parse_llm_response
  end.

Definition required_defaults (c : category) (file_path : string) : list (string * json) :=
  [ ("file", JStr file_path);
    (match c with PerformanceFinding => "impact" | _ => "severity" end, JStr "MEDIUM");
    ("issue_type",
     JStr (match c with
           | SecurityFinding => "SECURITY_ISSUE"
           | PerformanceFinding => "PERFORMANCE_ISSUE"
           | StyleFinding => "STYLE_ISSUE"
           end));
    ("description", JStr "");
    ("recommendation", JStr "") ].

(** The bracket that opens, and the one that closes, a text of the
    expected shape (read for [list] and [dict] only). *)
Definition opening (t : expected) : ascii :=
  match t with PyDict => "{" | _ => "[" end.

Definition closing (t : expected) : ascii :=
  match t with PyDict => "}" | _ => "]" end.

(** Whether every character of [s] satisfies [p]. *)
Fixpoint all_chars (p : ascii -> bool) (s : string) : bool :=
  match s with
  | EmptyString => true
  | String c r => p c && all_chars p r
  end.

(** The characters a repair appends. *)
Definition is_closer (a : ascii) : bool := char_is a "}" || char_is a "]".

(** The keys of the finding records an agent returns. *)
Definition schema (c : category) : gset string :=
  match c with
  | SecurityFinding =>
      {[ "file"; "line"; "severity"; "confidence"; "issue_type"; "description";
         "recommendation"; "cwe_id"; "owasp_category" ]}
  | PerformanceFinding =>
      {[ "file"; "line"; "issue_type"; "description"; "complexity_score"; "impact";
         "current_complexity"; "optimized_complexity"; "recommendation";
         "estimated_improvement" ]}
  | StyleFinding =>
      {[ "file"; "line"; "issue_type"; "description"; "severity"; "recommendation";
         "principle_violated"; "impact_on_maintainability" ]}
  end.


(* ===================================================================== *)
(** ** Sample inputs and environments *)

Definition obj1 (k : string) (v : json) : json := JObj {[k := v]}.

(** The truncated text [[{"a":1},{"b":2]. *)
Definition truncated_input : string :=
  "[{" ++ dq ++ "a" ++ dq ++ ":1},{" ++ dq ++ "b" ++ dq ++ ":2".

(** A list whose only string is a code fence around the letter a, written
    with escapes, and the same list written plainly. *)
Definition escaped_fence_text : string :=
  "[" ++ dq ++ "\u0060\u0060\u0060a\u0060\u0060\u0060" ++ dq ++ "]".

Definition plain_fence_text : string :=
  "[" ++ dq ++ "```a```" ++ dq ++ "]".

(** A record whose only value is a list, inside a code fence, and the
    same record written plainly. *)
Definition plain_record_text : string :=
  "{" ++ dq ++ "a" ++ dq ++ ": [1, 2]}".

Definition fenced_record_text : string :=
  "```json " ++ plain_record_text ++ " ```".

(** A list holding one integer of 4301 digits, and 2000 opening
    brackets. *)
Definition long_integer_text : string :=
  "[" ++ repeat_char "1" 4301 ++ "]".

Definition deep_nesting_text : string := repeat_char "[" 2000.

Definition sample_file : json := obj1 "path" (JStr "/tmp/code_review_x/app.py").

Definition sample_finding : json := obj1 "file" (JStr "/tmp/code_review_x/app.py").

(** An environment in which every collaborator answers: a text is a URL
    when it starts with [https://], the scanner finds [files], the
    analysers answer as [analysis] says, the report is written; every
    path can be examined, the paths without a dot in them are
    directories, and every removal succeeds. *)
Definition sample_env (files : list json) (analysis : node -> outcome (list json))
  (shares : bool) : Env :=
  mk_env
    (fun p => if startswith "https://" p
              then Returned ("https", "example.org") else Returned ("", ""))
    "/tmp"
    "/tmp/code_review_x"
    (fun _ _ => Returned tt)
    (fun p => match p with EmptyString => "/srv" | _ => p end)
    (fun _ => Returned (mk_scan files (JFloat "0.01") (JObj ∅)))
    (fun n _ _ => analysis n)
    (fun _ _ => Returned ("# report", "out/REVIEW_REPORT.md"))
    (fun _ => None)
    (fun p => negb (contains "." p))
    (fun _ => false)
    shares.

(** A file system with a directory next to the temporary root. *)
Definition sample_files : gset string :=
  {[ "/tmpfoo/data"; "/tmpfoo/data/app.py"; "/home/user/notes.txt" ]}.

Definition all_fine (n : node) : outcome (list json) := Returned [sample_finding].

Definition security_fails (n : node) : outcome (list json) :=
  match n with
  | Security => Raised (mk_exn OtherError "model unavailable")
  | _ => Returned [sample_finding]
  end.

(** A run on a remote repository during which the security analyser
    fails. *)
Definition failing_env : Env := sample_env [sample_file] security_fails true.

Definition remote_input : gmap string json :=
  initial_state "https://example.org/team/repo" "out".


(* ===================================================================== *)
(** * Properties *)

(* ===================================================================== *)
(** ** Facts about the string operations *)

Lemma char_is_true c d : char_is c d = true -> c = d.
Proof. unfold char_is. apply Ascii.eqb_eq. Qed.

Lemma startswith_json_fence s : startswith json_fence s = true -> startswith fence s = true.
Proof.
  unfold json_fence, fence.
  destruct s as [|a [|b [|c s]]]; cbn; try discriminate.
  - rewrite andb_false_r. discriminate.
  - rewrite !andb_false_r. discriminate.
  - intros H. apply andb_prop in H as [-> H]. apply andb_prop in H as [-> H].
    apply andb_prop in H as [-> _]. reflexivity.
Qed.

Lemma after_first_unfold sub s :
  after_first sub s =
  if startswith sub s then Some (drop (String.length sub) s)
  else match s with EmptyString => None | String _ r => after_first sub r end.
Proof. destruct s; reflexivity. Qed.

Lemma no_fence_no_json_fence s :
  after_first fence s = None -> after_first json_fence s = None.
Proof.
  induction s as [|a r IH].
  - rewrite (after_first_unfold fence ""), (after_first_unfold json_fence "").
    destruct (startswith fence "") eqn:Hf; [discriminate|].
    destruct (startswith json_fence "") eqn:Hj; [|reflexivity].
    apply startswith_json_fence in Hj. congruence.
  - rewrite (after_first_unfold fence (String a r)), (after_first_unfold json_fence (String a r)).
    destruct (startswith fence (String a r)) eqn:Hf; [discriminate|].
    destruct (startswith json_fence (String a r)) eqn:Hj.
    + apply startswith_json_fence in Hj. congruence.
    + exact IH.
Qed.

Lemma search_fence_none opener s : after_first opener s = None -> search_fence opener s = None.
Proof. unfold search_fence. intros ->. reflexivity. Qed.

Lemma take_all s : take (String.length s) s = s.
Proof. induction s; cbn; congruence. Qed.

Lemma len_cons a s : len (String a s) = len s + 1.
Proof. unfold len. cbn [String.length]. lia. Qed.

Lemma len_nonneg s : 0 <= len s.
Proof. unfold len. lia. Qed.

Lemma rfind_from_cons c a r i :
  rfind_from c (String a r) i =
  if rfind_from c r (i + 1) =? -1 then (if char_is a c then i else -1)
  else rfind_from c r (i + 1).
Proof. reflexivity. Qed.

Lemma endswith_char_cons c a b r :
  endswith_char c (String a (String b r)) = endswith_char c (String b r).
Proof. reflexivity. Qed.

(** When the text ends with the character sought, [rfind] gives the last
    index. *)
Lemma rfind_from_last c s i :
  0 <= i -> endswith_char c s = true -> rfind_from c s i = i + len s - 1.
Proof.
  revert i. induction s as [|a r IH]; intros i Hi; [discriminate|].
  destruct r as [|b r'].
  - cbn. intros ->. unfold len. cbn. lia.
  - rewrite endswith_char_cons. intros H.
    rewrite rfind_from_cons, (IH (i + 1)) by (assumption || lia).
    rewrite (len_cons a).
    pose proof (len_nonneg r'). rewrite (len_cons b) in *.
    destruct (Z.eqb_spec (i + 1 + (len r' + 1) - 1) (-1)); lia.
Qed.

Lemma rstrip_by_last p c s :
  endswith_char c s = true -> p c = false -> rstrip_by p s = s.
Proof.
  intros H Hp. induction s as [|a r IH]; [discriminate|].
  destruct r as [|b r'].
  - cbn in H. apply char_is_true in H. subst a. cbn. rewrite Hp. reflexivity.
  - rewrite endswith_char_cons in H. specialize (IH H).
    change (rstrip_by p (String a (String b r'))) with
      (match rstrip_by p (String b r') with
       | EmptyString => if p a then EmptyString else String a EmptyString
       | r0 => String a r0
       end).
    rewrite IH. reflexivity.
Qed.

Lemma strip_bracketed a c s :
  py_isspace a = false -> py_isspace c = false ->
  endswith_char c (String a s) = true -> strip (String a s) = String a s.
Proof.
  intros Ha Hc He. unfold strip. cbn [lstrip_by]. rewrite Ha.
  eapply rstrip_by_last; eassumption.
Qed.

Lemma endswith_char_len c d s :
  endswith_char c (String d s) = true -> c <> d -> 0 < len s.
Proof.
  destruct s as [|b r]; cbn.
  - intros H Hn. apply char_is_true in H. congruence.
  - intros _ _. rewrite len_cons. pose proof (len_nonneg r). lia.
Qed.

Lemma startswith_char c s :
  startswith (String c EmptyString) s = true -> exists r, s = String c r.
Proof.
  destruct s as [|a r]; cbn; [discriminate|].
  rewrite andb_true_r. intros H. apply char_is_true in H. subst. eauto.
Qed.

Lemma slice_whole s : slice s 0 (0 + len s - 1 + 1) = s.
Proof.
  unfold slice, len.
  replace (0 + Z.of_nat (String.length s) - 1 + 1 - 0) with (Z.of_nat (String.length s)) by lia.
  rewrite Nat2Z.id. cbn. apply take_all.
Qed.

(** On a text without code fence that opens and closes with the brackets
    of the expected shape, the candidate is the whole text. *)
Lemma locate_candidate_bracketed t s :
  contains fence s = false -> well_bracketed t s = true -> locate_candidate s t = s.
Proof.
  unfold contains. intros Hc Hb.
  destruct (after_first fence s) eqn:Hf; [discriminate|].
  unfold locate_candidate.
  rewrite (search_fence_none _ _ (no_fence_no_json_fence _ Hf)), (search_fence_none _ _ Hf).
  destruct t as [| |inst]; [| |discriminate]; unfold well_bracketed in Hb;
    apply andb_prop in Hb as [Hs He]; apply startswith_char in Hs as [r ->].
  - unfold py_find, py_rfind. cbn [find_from].
    replace (char_is "[" "[") with true by reflexivity.
    rewrite (rfind_from_last _ _ 0 ltac:(lia) He).
    pose proof (endswith_char_len _ _ _ He ltac:(discriminate)) as Hl.
    rewrite (len_cons "[" r) in *.
    replace (negb (0 =? -1)) with true by reflexivity.
    destruct (Z.eqb_spec (0 + (len r + 1) - 1) (-1)); [lia|].
    destruct (Z.ltb_spec 0 (0 + (len r + 1) - 1)); [|lia].
    cbn [negb andb]. rewrite <- (len_cons "[" r), slice_whole.
    apply (strip_bracketed _ "]"); [reflexivity|reflexivity|assumption].
  - unfold py_find, py_rfind. cbn [find_from].
    replace (char_is "{" "{") with true by reflexivity.
    rewrite (rfind_from_last _ _ 0 ltac:(lia) He).
    pose proof (endswith_char_len _ _ _ He ltac:(discriminate)) as Hl.
    rewrite (len_cons "{" r) in *.
    replace (negb (0 =? -1)) with true by reflexivity.
    destruct (Z.eqb_spec (0 + (len r + 1) - 1) (-1)); [lia|].
    destruct (Z.ltb_spec 0 (0 + (len r + 1) - 1)); [|lia].
    cbn [negb andb]. rewrite <- (len_cons "{" r), slice_whole.
    apply (strip_bracketed _ "}"); [reflexivity|reflexivity|assumption].
Qed.

(* ===================================================================== *)
(** ** The structured extractor *)

(** An exception leaves the extractor only at the first strict parse,
    and only when it is no decoding error. *)
Lemma safe_parse_json_raises_at_first_parse text t e :
  safe_parse_json text t = Raised e ->
  Json.loads (locate_candidate (text_of text) t) = Raised e /\
  exn_cls e <> JSONDecodeError.
Proof.
  unfold safe_parse_json, safe_parse_json_trace.
  destruct (text_is_empty text); [discriminate|].
  destruct (String.eqb _ ""); [discriminate|].
  destruct (Json.loads (locate_candidate (text_of text) t)) as [v|e0]; [discriminate|].
  destruct (exn_cls e0) eqn:Hc;
    try (cbn [snd]; intros H; inversion H; subst; split; [reflexivity|congruence]).
  destruct (repair t _) as [tmp|]; [|discriminate].
  destruct (Json.loads tmp); discriminate.
Qed.

(** When the first strict parse returns, or raises its decoding error,
    the extractor returns; and when every text it handed to the strict
    parser was rejected (the candidate, and the repaired candidate when a
    repair was tried), or when there was nothing to hand over, the value
    is the empty instance of the expected shape. *)
Lemma safe_parse_json_settles text t :
  (forall e, Json.loads (locate_candidate (text_of text) t) = Raised e ->
             exn_cls e = JSONDecodeError) ->
  (exists v, safe_parse_json text t = Returned v) /\
  (Forall (fun c => is_returned (Json.loads c) = false)
          (fst (safe_parse_json_trace text t)) ->
   safe_parse_json text t = Returned (empty_instance t)).
Proof.
  intros Hdec. unfold safe_parse_json, safe_parse_json_trace.
  destruct (text_is_empty text); [split; eauto|].
  destruct (String.eqb _ ""); [split; eauto|].
  destruct (Json.loads (locate_candidate (text_of text) t)) as [v|e] eqn:Hl.
  - split; [eauto|]. cbn. intros H. inversion H as [|? ? Hc _]; subst.
    rewrite Hl in Hc. discriminate.
  - rewrite (Hdec e eq_refl).
    destruct (repair t _) as [tmp|]; [|split; eauto].
    destruct (Json.loads tmp) as [v|e'] eqn:Hr.
    + split; [eauto|]. cbn. intros H.
      inversion H as [|? ? _ H2]; subst. inversion H2 as [|? ? Hc _]; subst.
      rewrite Hr in Hc. discriminate.
    + split; eauto.
Qed.

(** The parser and the extractor on a few texts. *)
Example loads_nested :
  Json.loads " [[[[]]], {}, -0, 2.5e3, null] " =
  Returned (JArr [JArr [JArr [JArr []]]; JObj ∅; JInt 0; JFloat "2.5e3"; JNull]).
Proof. vm_compute. reflexivity. Qed.

Example loads_rejects_trailing_comma : is_returned (Json.loads "[1,]") = false.
Proof. vm_compute. reflexivity. Qed.

Example loads_last_duplicate_wins :
  Json.loads ("{" ++ dq ++ "k" ++ dq ++ ": 1, " ++ dq ++ "k" ++ dq ++ ": 2}") =
  Returned (obj1 "k" (JInt 2)).
Proof. vm_compute. reflexivity. Qed.

Example fenced_block_extracted :
  safe_parse_json
    (TextStr ("noise ```json [{" ++ dq ++ "a" ++ dq ++ ":1}] ``` more noise")) PyList =
  Returned (JArr [obj1 "a" (JInt 1)]).
Proof. vm_compute. reflexivity. Qed.

Example bracket_slice_extracted :
  safe_parse_json_trace (TextStr "Here you go: [1, 2] -- done") PyList =
  (["[1, 2]"], Returned (JArr [JInt 1; JInt 2])).
Proof. vm_compute. reflexivity. Qed.

(** C5, the failing input. A list holding one integer of 4301 digits:
    the conversion of the integer raises [ValueError], which is no
    decoding error; the strict parser passes it on, and the extractor,
    which meets only [json.JSONDecodeError] at its first strict parse,
    raises it to its caller instead of returning the empty list. *)
Theorem safe_parse_json_raises_on_long_integer :
  let e := mk_exn ValueError
    ("Exceeds the limit (4300 digits) for integer string conversion: " ++
     "value has 4301 digits; use sys.set_int_max_str_digits() to increase the limit") in
  locate_candidate long_integer_text PyList = long_integer_text /\
  Json.loads long_integer_text = Raised e /\
  safe_parse_json_trace (TextStr long_integer_text) PyList =
    ([long_integer_text], Raised e) /\
  safe_parse_json (TextStr long_integer_text) PyList <> Returned (empty_instance PyList).
Proof.
  cbv zeta.
  assert (Hc : locate_candidate long_integer_text PyList = long_integer_text)
    by (vm_compute; reflexivity).
  assert (Hl : Json.loads long_integer_text =
    Raised (mk_exn ValueError
      ("Exceeds the limit (4300 digits) for integer string conversion: " ++
       "value has 4301 digits; use sys.set_int_max_str_digits() to increase the limit")))
    by (vm_compute; reflexivity).
  assert (Hne : String.eqb long_integer_text "" = false) by reflexivity.
  split; [exact Hc|]. split; [exact Hl|].
  unfold safe_parse_json, safe_parse_json_trace.
  cbn [text_is_empty text_of]. rewrite Hne, Hc, Hne, Hl. cbn [exn_cls snd].
  split; [reflexivity|discriminate].
Qed.

(** The recursion guard of the scanner leaves the extractor in the same
    way: on 2000 opening brackets the strict parser raises
    [RecursionError], and so does the extractor. *)
Lemma safe_parse_json_raises_on_deep_nesting :
  exists e,
    exn_cls e = RecursionError /\
    Json.loads deep_nesting_text = Raised e /\
    safe_parse_json (TextStr deep_nesting_text) PyList = Raised e.
Proof.
  exists (Json.too_deep "array").
  split; [reflexivity|]. split; vm_compute; reflexivity.
Qed.

(** C6, counterexample. Two successful outputs on which a second run
    gives another value.  First, the extractor succeeds on a list whose
    string is a code fence written with escapes; the plain text of the
    value it returns is valid structured text of the list shape, and on
    that text the extractor returns the empty list instead of the value.
    Second, asked for a list, the extractor succeeds on a record inside a
    code fence and returns the record; the plain text of that record
    holds no code fence and is valid structured text, and on it the
    extractor returns the list inside the record instead of the record. *)
Lemma rerun_counterexample :
  (safe_parse_json_trace (TextStr escaped_fence_text) PyList =
     ([escaped_fence_text], Returned (JArr [JStr "```a```"])) /\
   Json.loads plain_fence_text = Returned (JArr [JStr "```a```"]) /\
   well_bracketed PyList plain_fence_text = true /\
   contains fence plain_fence_text = true /\
   safe_parse_json (TextStr plain_fence_text) PyList = Returned (JArr []) /\
   safe_parse_json (TextStr plain_fence_text) PyList <>
     safe_parse_json (TextStr escaped_fence_text) PyList) /\
  (safe_parse_json_trace (TextStr fenced_record_text) PyList =
     ([plain_record_text], Returned (obj1 "a" (JArr [JInt 1; JInt 2]))) /\
   Json.loads plain_record_text = Returned (obj1 "a" (JArr [JInt 1; JInt 2])) /\
   contains fence plain_record_text = false /\
   well_bracketed PyList plain_record_text = false /\
   safe_parse_json (TextStr plain_record_text) PyList = Returned (JArr [JInt 1; JInt 2]) /\
   safe_parse_json (TextStr plain_record_text) PyList <>
     safe_parse_json (TextStr fenced_record_text) PyList).
Proof.
  split; repeat split; try (vm_compute; reflexivity); vm_compute; discriminate.
Qed.

(** C6, amended. On every text that holds no code fence, opens and closes
    with the brackets of the expected shape and is accepted by the strict
    parser with value [v], the extractor hands exactly that text to the
    strict parser, once, and returns [v]. *)
Theorem rerun_on_clean_output (t : expected) (s : string) (v : json) :
  contains fence s = false ->
  well_bracketed t s = true ->
  Json.loads s = Returned v ->
  safe_parse_json_trace (TextStr s) t = ([s], Returned v).
Proof.
  intros Hc Hb Hl. unfold safe_parse_json_trace.
  assert (Hne : String.eqb s "" = false).
  { destruct s; [|reflexivity]. destruct t; discriminate. }
  cbn [text_is_empty text_of]. rewrite Hne.
  rewrite (locate_candidate_bracketed t s Hc Hb), Hne, Hl. reflexivity.
Qed.

Lemma rerun_on_clean_output_witness :
  safe_parse_json_trace (TextStr "[1, 2]") PyList =
  (["[1, 2]"], Returned (JArr [JInt 1; JInt 2])).
Proof.
  apply rerun_on_clean_output; vm_compute; reflexivity.
Defined.

(** C7. On the truncated text the strict parse fails; there is no
    trailing separator to strip, one opening brace is unmatched, so the
    repair appends one closing brace and the closing bracket; the strict
    parser is tried once more, on the repaired text, and the list returned
    holds the record with key a and value 1. *)
Theorem truncated_list_repaired :
  is_returned (Json.loads truncated_input) = false /\
  rstrip_char "," (rstrip truncated_input) = truncated_input /\
  count "{" truncated_input - count "}" truncated_input = 1 /\
  repair PyList truncated_input = Some (truncated_input ++ "}" ++ "]") /\
  safe_parse_json_trace (TextStr truncated_input) PyList =
    ([truncated_input; truncated_input ++ "}" ++ "]"],
     Returned (JArr [obj1 "a" (JInt 1); obj1 "b" (JInt 2)])) /\
  exists l, safe_parse_json (TextStr truncated_input) PyList = Returned (JArr l) /\
            In (obj1 "a" (JInt 1)) l.
Proof.
  repeat split; try (vm_compute; reflexivity).
  exists [obj1 "a" (JInt 1); obj1 "b" (JInt 2)]. split; [vm_compute; reflexivity|].
  left. reflexivity.
Qed.

(* ===================================================================== *)
(** ** Validation of the parsed findings *)

Lemma validate_all_dicts f l :
  validate_all f l = map (fun d => JObj (f d)) (dicts_of l).
Proof.
  induction l as [|x r IH]; [reflexivity|].
  destruct x; cbn; rewrite ?IH; reflexivity.
Qed.

(** C9, counterexample. The response [[7]] parses to a list of one
    element; the validation of the security and of the performance agent
    return no finding for it. *)
Lemma non_record_dropped :
  safe_parse_json (TextStr "[7]") PyList = Returned (JArr [JInt 7]) /\
  SecurityAgent._parse_llm_response (TextStr "[7]") "app.py" = Returned [] /\
  PerformanceAgent._parse_llm_response (TextStr "[7]") "app.py" = Returned [].
Proof. repeat split; vm_compute; reflexivity. Qed.

(** C9, amended. When the response parses to a list, the validation step
    of each agent returns one finding for every element of the list that is
    a record, in order, and nothing for the other elements; in every
    finding returned a required field that the record lacks holds its
    default: the path of the analysed file, MEDIUM for the severity (the
    impact, for performance), the placeholder of the category for the
    issue type, and the empty text for description and recommendation. *)
Theorem records_validated_with_defaults (c : category) (response : llm_text)
  (file_path : string) (l : list json) :
  safe_parse_json response PyList = Returned (JArr l) ->
  parse_by c response file_path =
    Returned (map (fun d => JObj (validated_by c file_path d)) (dicts_of l)) /\
  forall d, Forall (fun kd => validated_by c file_path d !! kd.1 = Some (dict_get d kd.1 kd.2))
                   (required_defaults c file_path).
Proof.
  intros H. split.
  - destruct c; cbn [parse_by validated_by];
      unfold SecurityAgent._parse_llm_response, PerformanceAgent._parse_llm_response,
        StyleAgent._parse_llm_response, parse_with;
      rewrite H; cbn [as_finding_list]; rewrite validate_all_dicts; reflexivity.
  - intros d. destruct c; cbn [validated_by required_defaults];
      unfold SecurityAgent.validated_finding, PerformanceAgent.validated_finding,
        StyleAgent.validated_finding;
      repeat (apply Forall_cons; split; [cbn [fst snd]; by simplify_map_eq|]);
      apply Forall_nil; done.
Qed.

Lemma records_validated_with_defaults_witness :
  SecurityAgent._parse_llm_response (TextStr "[{}, 7]") "app.py" =
  Returned [JObj (SecurityAgent.validated_finding "app.py" ∅)].
Proof.
  apply (proj1 (records_validated_with_defaults SecurityFinding (TextStr "[{}, 7]") "app.py"
                  [JObj ∅; JInt 7] ltac:(vm_compute; reflexivity))).
Defined.

(* ===================================================================== *)
(** ** Git URLs and the way ingestion takes *)

Lemma is_git_url_dot_git E path :
  endswith ".git" (lower path) = true -> is_git_url E path = true.
Proof.
  intros H. unfold is_git_url.
  replace (existsb (fun p => re_search_ci p path) git_patterns) with true; [reflexivity|].
  symmetry. apply existsb_exists. exists DotGitAtEnd. split.
  - unfold git_patterns. repeat (first [left; reflexivity | right]).
  - cbn [re_search_ci]. rewrite H. reflexivity.
Qed.

Lemma is_git_url_scheme_netloc E path scheme netloc :
  urlparse E path = Returned (scheme, netloc) -> scheme <> "" -> netloc <> "" ->
  is_git_url E path = true.
Proof.
  intros H Hs Hn. unfold is_git_url.
  destruct (existsb _ git_patterns); [reflexivity|].
  rewrite H.
  destruct (String.eqb_spec scheme ""); [contradiction|].
  destruct (String.eqb_spec netloc ""); [contradiction|]. reflexivity.
Qed.

(** Ingestion clones exactly when the input is taken for a git URL. *)
Lemma ingest_clones_iff E temps path :
  clones (snd (IngestorAgent.ingest E temps path)) = is_git_url E path.
Proof.
  unfold IngestorAgent.ingest.
  destruct (is_git_url E path) eqn:Hg.
  - unfold IngestorAgent._ingest_git_repository, clone_repository. rewrite Hg. cbn [negb].
    destruct (clone_from E path (mkdtemp E)) as [[]|e].
    + destruct (scan_local_directory E (mkdtemp E)); reflexivity.
    + destruct (exn_cls e); reflexivity.
  - unfold IngestorAgent._ingest_local_directory.
    destruct (scan_local_directory E (resolve E path)); reflexivity.
Qed.

(** C10. Whatever the environment (so also when the text names a
    directory that exists): an input that ends with [.git], in any case of
    the letters, or that parses as a URL with a scheme and a network host,
    is taken for a git URL and ingestion starts with the clone; and when
    ingestion does not clone, it scans the resolved local path, no git
    pattern matches the input and the input has no scheme or no host. *)
Theorem git_url_takes_clone_path (E : Env) (temps : list string) (path : string) :
  ((endswith ".git" (lower path) = true \/
    exists scheme netloc,
      urlparse E path = Returned (scheme, netloc) /\ scheme <> "" /\ netloc <> "") ->
   is_git_url E path = true /\
   clones (snd (IngestorAgent.ingest E temps path)) = true) /\
  (clones (snd (IngestorAgent.ingest E temps path)) = false ->
   snd (IngestorAgent.ingest E temps path) = [EvScan (resolve E path)] /\
   Forall (fun p => re_search_ci p path = false) git_patterns /\
   forall scheme netloc,
     urlparse E path = Returned (scheme, netloc) -> scheme = "" \/ netloc = "").
Proof.
  split.
  - intros H. assert (Hg : is_git_url E path = true).
    { destruct H as [H|(s & n & H & Hs & Hn)].
      - by apply is_git_url_dot_git.
      - by eapply is_git_url_scheme_netloc. }
    split; [exact Hg|]. by rewrite ingest_clones_iff.
  - rewrite ingest_clones_iff. intros Hg. split; [|split].
    + unfold IngestorAgent.ingest. rewrite Hg.
      unfold IngestorAgent._ingest_local_directory.
      destruct (scan_local_directory E (resolve E path)); reflexivity.
    + unfold is_git_url in Hg.
      destruct (existsb _ git_patterns) eqn:Hp; [discriminate|].
      apply Forall_forall. intros p Hin.
      destruct (re_search_ci p path) eqn:Hr; [|reflexivity].
      assert (existsb (fun p => re_search_ci p path) git_patterns = true).
      { apply existsb_exists. exists p. split; [by apply list_elem_of_In|done]. }
      congruence.
    + intros s n Hu. unfold is_git_url in Hg.
      destruct (existsb _ git_patterns); [discriminate|]. rewrite Hu in Hg.
      destruct (String.eqb_spec s ""); [by left|].
      destruct (String.eqb_spec n ""); [by right|]. discriminate.
Qed.

Lemma git_url_takes_clone_path_witness :
  is_git_url (sample_env [sample_file] all_fine true) "./vendor/Widgets.GIT" = true /\
  clones (snd (IngestorAgent.ingest (sample_env [sample_file] all_fine true) []
                 "./vendor/Widgets.GIT")) = true.
Proof.
  apply (proj1 (git_url_takes_clone_path (sample_env [sample_file] all_fine true) []
                  "./vendor/Widgets.GIT")).
  left. vm_compute. reflexivity.
Defined.

(* ===================================================================== *)
(** ** Release of the working directory *)

(** An entry stays only when some removal fails. *)
Lemma stays_false E (files : gset string) q :
  (forall r, r ∈ files -> removal_fails E r = false) -> stays E files q = false.
Proof.
  intros H. unfold stays. apply not_true_is_false. intros Hex.
  apply existsb_exists in Hex as (r & Hr & Hb).
  apply andb_prop in Hb as [_ Hf].
  apply list_elem_of_In, elem_of_elements in Hr. rewrite (H r Hr) in Hf. discriminate.
Qed.

(** [cleanup_repository] raises nothing but what the existence test
    raises. *)
Lemma cleanup_repository_returns E files p force :
  exists_raises E p = None ->
  exists files', fst (cleanup_repository E files p force) = Returned files'.
Proof.
  intros He. unfold cleanup_repository. rewrite He.
  destruct (negb (bool_decide (p ∈ files))); [eauto|].
  destruct (negb (startswith (gettempdir E) p) && negb force); eauto.
Qed.

(** After a call on a directory in which no removal failed, a second call
    on the same path changes nothing and logs no error. *)
Lemma cleanup_repository_twice E files p force files1 log1 :
  is_directory E p = true ->
  (forall r, r ∈ files -> removal_fails E r = false) ->
  cleanup_repository E files p force = (Returned files1, log1) ->
  cleanup_repository E files1 p force = (Returned files1, [WARNING]).
Proof.
  intros Hd Hf. unfold cleanup_repository.
  destruct (exists_raises E p); [discriminate|].
  destruct (bool_decide (p ∈ files)) eqn:Hin; cbn [negb].
  - destruct (negb (startswith (gettempdir E) p) && negb force) eqn:Hskip.
    + intros H. inversion H; subst. rewrite Hin. reflexivity.
    + intros H. inversion H; subst.
      rewrite bool_decide_eq_false_2; [reflexivity|].
      unfold rmtree. rewrite Hd. intros Hp. apply elem_of_filter in Hp as [Hu _].
      rewrite (stays_false E files p Hf), orb_false_r in Hu.
      unfold under in Hu. rewrite String.eqb_refl in Hu. discriminate.
  - intros H. inversion H; subst. rewrite Hin. reflexivity.
Qed.

(** C8, the failing input. With the temporary root [/tmp], the directory
    [/tmpfoo/data] is not under the temporary root; [cleanup_repository]
    called on it without [force] deletes it and what it holds. *)
Theorem cleanup_deletes_outside_temp_root :
  gettempdir (sample_env [] all_fine true) = "/tmp" /\
  resides_under "/tmp" "/tmpfoo/data" = false /\
  cleanup_repository (sample_env [] all_fine true) sample_files "/tmpfoo/data" false =
    (Returned {[ "/home/user/notes.txt" ]}, [INFO; INFO]).
Proof. repeat split; vm_compute; reflexivity. Qed.

(* ===================================================================== *)
(** ** The executor on the declared graph *)

Lemma next_after_ingestor r :
  next_nodes create_review_graph
    ([match r with Continue => To Security | End => END end] ++
     static_targets create_review_graph [Ingestor])%list =
  match r with Continue => [Performance; Security; Style] | End => [Performance; Style] end.
Proof. destruct r; vm_compute; reflexivity. Qed.

Lemma next_after_branches (active : list node) :
  active = [Performance; Security; Style] \/ active = [Performance; Style] ->
  next_nodes create_review_graph ([] ++ static_targets create_review_graph active)%list = [Aggregator].
Proof. intros [-> | ->]; vm_compute; reflexivity. Qed.

Lemma next_after_aggregator :
  next_nodes create_review_graph ([] ++ static_targets create_review_graph [Aggregator])%list = [].
Proof. vm_compute; reflexivity. Qed.

Lemma route_step_ingestor E st :
  route_step E create_review_graph [Ingestor] st =
  ([match fst (should_continue_to_agents st) with Continue => To Security | End => END end],
   if router_shares_record E then snd (should_continue_to_agents st) else st).
Proof.
  unfold route_step. cbn [conditional_edges create_review_graph fold_left].
  rewrite bool_decide_eq_true_2 by (apply list_elem_of_here).
  destruct (should_continue_to_agents st) as [r s']. reflexivity.
Qed.

Lemma route_step_other E (active : list node) st :
  Ingestor ∉ active -> route_step E create_review_graph active st = ([], st).
Proof.
  intros H. unfold route_step. cbn [conditional_edges create_review_graph fold_left].
  rewrite bool_decide_eq_false_2 by assumption. reflexivity.
Qed.


Lemma supersteps_unfold f E g a rest st :
  supersteps (S f) E g (a :: rest) st =
  let '(r, snap, ev) := run_nodes E (a :: rest) st in
  match r with
  | Raised e => (Raised e, ev)
  | Returned upds =>
      let merged := merge_all snap upds in
      let '(ts, st') := route_step E g (a :: rest) merged in
      let '(res, ev') :=
        supersteps f E g (next_nodes g (ts ++ static_targets g (a :: rest))%list) st' in
      (res, (ev ++ ev')%list)
  end.
Proof. reflexivity. Qed.

Lemma invoke_unfold E input :
  invoke E create_review_graph input =
  let st1 := after_ingestion E input in
  let st2 := after_gate E input in
  let active := branches_for (fst (should_continue_to_agents st1)) in
  let '(r, snap, ev) := run_nodes E active st2 in
  let ev0 := (EvStage Ingestor :: snd (ingestor_node E input))%list in
  match r with
  | Raised e => (Raised e, (ev0 ++ ev)%list)
  | Returned upds =>
      let st3 := merge_all snap upds in
      (Returned (apply_update st3 (Aggregator, aggregator_node E st3)),
       (ev0 ++ ev ++ [EvStage Aggregator])%list)
  end.
Proof.
  unfold invoke, recursion_limit. cbn [entry_point create_review_graph].
  rewrite supersteps_unfold.
  cbn [run_nodes node_fn]. 
  destruct (ingestor_node E input) as [u0 ev0] eqn:Hi.
  cbn [merge_all fold_left]. rewrite route_step_ingestor.
  unfold after_gate, after_ingestion. rewrite Hi. cbn [fst snd].
  set (st1 := apply_update input (Ingestor, u0)).
  rewrite next_after_ingestor. fold (branches_for (fst (should_continue_to_agents st1))).
  set (st2 := if router_shares_record E then _ else _).
  assert (Hact : exists a rest, branches_for (fst (should_continue_to_agents st1)) = a :: rest
     /\ (a :: rest = [Performance; Security; Style] \/ a :: rest = [Performance; Style])).
  { destruct (fst (should_continue_to_agents st1)); cbn; eauto. }
  destruct Hact as (a & rest & -> & Hact).
  rewrite supersteps_unfold.
  destruct (run_nodes E (a :: rest) st2) as [[r snap] ev] eqn:Hr.
  destruct r as [upds|e]; cbv beta iota zeta.
  - rewrite route_step_other by (destruct Hact as [-> | ->]; apply (bool_decide_unpack _); vm_compute; exact I).
    rewrite (next_after_branches _ Hact).
    rewrite supersteps_unfold. cbn [run_nodes node_fn merge_all fold_left].
    cbv beta iota zeta.
    rewrite route_step_other by (apply (bool_decide_unpack _); vm_compute; exact I).
    rewrite next_after_aggregator. cbn [supersteps].
    cbn [app]. rewrite !app_nil_r. reflexivity.
  - rewrite !app_nil_r. reflexivity.
Qed.

(* ===================================================================== *)
(** ** The state store *)

Lemma lookup_permitted n (u : State) k :
  permitted n u !! k = if decide (k ∈ write_keys n) then u !! k else None.
Proof.
  unfold permitted. destruct (decide (k ∈ write_keys n)) as [Hin|Hout].
  - destruct (u !! k) as [v|] eqn:Hu.
    + apply map_lookup_filter_Some. split; assumption.
    + apply map_lookup_filter_None. left. assumption.
  - apply map_lookup_filter_None. right. intros v _ Hin. apply Hout, Hin.
Qed.

Lemma lookup_apply_update_ne st n (u : State) k :
  k <> "warnings" ->
  apply_update st (n, u) !! k =
  match permitted n u !! k with Some v => Some v | None => st !! k end.
Proof.
  intros Hk. unfold apply_update. cbn [fst snd].
  assert (H : (delete "warnings" (permitted n u) ∪ st) !! k =
              match permitted n u !! k with Some v => Some v | None => st !! k end).
  { rewrite lookup_union, lookup_delete_ne by congruence.
    destruct (permitted n u !! k), (st !! k); reflexivity. }
  destruct (permitted n u !! "warnings"); [rewrite lookup_insert_ne by congruence|]; exact H.
Qed.

Lemma warnings_apply_update st n (u : State) :
  warnings_of (apply_update st (n, u)) = (warnings_of st ++ warnings_of (permitted n u))%list.
Proof.
  unfold apply_update. cbn [fst snd].
  destruct (permitted n u !! "warnings") as [w|] eqn:Hp.
  - unfold warnings_of at 1. rewrite lookup_insert_eq. cbn [as_list].
    unfold warnings_of. rewrite Hp. reflexivity.
  - unfold warnings_of. rewrite Hp, lookup_union, lookup_delete_eq, app_nil_r.
    destruct (st !! "warnings"); reflexivity.
Qed.

Lemma lookup_merge_all_agree (l : list (node * State)) st k v :
  k <> "warnings" ->
  (forall m u, (m, u) ∈ l -> k ∈ write_keys m -> u !! k = Some v) ->
  (st !! k = Some v \/ exists m u, (m, u) ∈ l /\ k ∈ write_keys m) ->
  merge_all st l !! k = Some v.
Proof.
  intros Hk. revert st. induction l as [|[m u] l IH]; intros st Hall Hex.
  - destruct Hex as [H|(m & u & H & _)]; [exact H|]. by apply elem_of_nil in H.
  - cbn [merge_all fold_left]. apply IH.
    + intros m' u' Hin. apply Hall. by apply elem_of_cons; right.
    + rewrite lookup_apply_update_ne, lookup_permitted by exact Hk.
      destruct (decide (k ∈ write_keys m)) as [Hw|Hw].
      * left. rewrite (Hall m u) by (assumption || apply elem_of_cons; by left). reflexivity.
      * destruct Hex as [H|(m' & u' & Hin & Hw')]; [by left|].
        apply elem_of_cons in Hin as [Heq|Hin]; [|right; eauto].
        inversion Heq; subst. contradiction.
Qed.

Lemma warnings_merge_all_base (l : list (node * State)) st w :
  w ∈ warnings_of st -> w ∈ warnings_of (merge_all st l).
Proof.
  revert st. induction l as [|[m u] l IH]; intros st H; [exact H|].
  cbn [merge_all fold_left]. apply IH. rewrite warnings_apply_update.
  apply elem_of_app. by left.
Qed.

Lemma warnings_merge_all (l : list (node * State)) st m u w :
  (m, u) ∈ l -> "warnings" ∈ write_keys m -> w ∈ warnings_of u ->
  w ∈ warnings_of (merge_all st l).
Proof.
  revert st. induction l as [|[m' u'] l IH]; intros st Hin Hw Hwu.
  - by apply elem_of_nil in Hin.
  - cbn [merge_all fold_left]. apply elem_of_cons in Hin as [Heq|Hin].
    + inversion Heq; subst. apply warnings_merge_all_base.
      rewrite warnings_apply_update. apply elem_of_app. right.
      unfold warnings_of in *. rewrite lookup_permitted.
      destruct (decide ("warnings" ∈ write_keys m')); [exact Hwu|contradiction].
    + by apply IH.
Qed.

(* ===================================================================== *)
(** ** Ingestion and the gate *)

Lemma ingestor_node_shape E (input : State) :
  let u := fst (ingestor_node E input) in
  (u !! "total_files" = Some (JInt 0) /\ u !! "file_tree" = Some (JObj ∅)) \/
  (exists dir r wd,
     u !! "file_tree" = Some (JObj (file_tree_of dir r)) /\
     u !! "total_files" = Some (JInt (Z.of_nat (List.length (scan_files r)))) /\
     u !! "working_directory" = Some (JStr wd) /\
     (wd = mkdtemp E \/ exists p, wd = resolve E p) /\
     u !! "error" = input !! "error" /\
     u !! "warnings" = input !! "warnings").
Proof.
  cbv zeta. unfold ingestor_node.
  destruct (negb (truthy_opt (input !! "input_path"))); [left; by simplify_map_eq|].
  destruct (input !! "input_path") as [[| | | |p| |]|]; try (left; by simplify_map_eq).
  unfold IngestorAgent.ingest.
  destruct (is_git_url E p).
  - unfold IngestorAgent._ingest_git_repository, clone_repository.
    destruct (negb (is_git_url E p)); [left; by simplify_map_eq|].
    destruct (clone_from E p (mkdtemp E)) as [[]|e].
    + unfold scan_local_directory.
      destruct (scan_walk E (resolve E (mkdtemp E))) as [r|e]; [|left; by simplify_map_eq].
      right. exists (resolve E (mkdtemp E)), r, (mkdtemp E).
      cbn. unfold file_tree_of at 1. simplify_map_eq. repeat split; eauto.
    + destruct (exn_cls e); left; by simplify_map_eq.
  - unfold IngestorAgent._ingest_local_directory, scan_local_directory.
    destruct (scan_walk E (resolve E (resolve E p))) as [r|e]; [|left; by simplify_map_eq].
    right. exists (resolve E (resolve E p)), r, (resolve E p).
    cbn. unfold file_tree_of at 1. simplify_map_eq. repeat split; eauto.
Qed.

Lemma lookup_apply_update_warnings st n (u : State) :
  apply_update st (n, u) !! "warnings" =
  match permitted n u !! "warnings" with
  | Some w => Some (JArr (warnings_of st ++ as_list w)%list)
  | None => st !! "warnings"
  end.
Proof.
  unfold apply_update. cbn [fst snd].
  destruct (permitted n u !! "warnings").
  - by rewrite lookup_insert_eq.
  - rewrite lookup_union, lookup_delete_eq. by destruct (st !! "warnings").
Qed.

Lemma lookup_permitted_b n (u : State) k :
  permitted n u !! k = if bool_decide (k ∈ write_keys n) then u !! k else None.
Proof. rewrite lookup_permitted. case_bool_decide; case_decide; done. Qed.

Ltac decide_keys :=
  repeat match goal with
  | |- context [bool_decide (?k ∈ write_keys ?m)] =>
      let b := eval vm_compute in (bool_decide (k ∈ write_keys m)) in
      change (bool_decide (k ∈ write_keys m)) with b
  end; cbv beta iota.

Lemma lookup_after_ingestion E (input : State) k :
  after_ingestion E input !! k =
  if bool_decide (k ∈ write_keys Ingestor)
  then match fst (ingestor_node E input) !! k with Some v => Some v | None => input !! k end
  else input !! k.
Proof.
  unfold after_ingestion.
  destruct (decide (k = "warnings")) as [->|Hk].
  - rewrite lookup_apply_update_warnings, lookup_permitted_b. decide_keys. reflexivity.
  - rewrite lookup_apply_update_ne, lookup_permitted_b by exact Hk.
    by destruct (bool_decide (k ∈ write_keys Ingestor)).
Qed.

Lemma gate_continue st :
  fst (should_continue_to_agents st) = Continue ->
  should_continue_to_agents st = (Continue, st) /\
  truthy_opt (st !! "error") = false /\
  eq_zero (dict_get st "total_files" (JInt 0)) = false.
Proof.
  unfold should_continue_to_agents.
  destruct (truthy_opt (st !! "error")); [discriminate|].
  destruct (eq_zero _); [discriminate|]. auto.
Qed.

Lemma passed_gate_shape E (input : State) :
  input !! "warnings" = None ->
  fst (should_continue_to_agents (after_ingestion E input)) = Continue ->
  after_gate E input = after_ingestion E input /\
  truthy_opt (after_gate E input !! "error") = false /\
  after_gate E input !! "warnings" = None /\
  exists dir r wd,
    after_gate E input !! "file_tree" = Some (JObj (file_tree_of dir r)) /\
    scan_files r <> [] /\
    after_gate E input !! "working_directory" = Some (JStr wd) /\
    (wd = mkdtemp E \/ exists p, wd = resolve E p).
Proof.
  intros Hw Hgate.
  destruct (gate_continue _ Hgate) as (Hg & Herr & Hz).
  assert (Heq : after_gate E input = after_ingestion E input).
  { unfold after_gate. rewrite Hg. by destruct (router_shares_record E). }
  rewrite Heq. split; [reflexivity|]. split; [exact Herr|].
  split; [rewrite lookup_after_ingestion; decide_keys; exact Hw|].
  unfold dict_get in Hz. rewrite lookup_after_ingestion in Hz. revert Hz. decide_keys.
  destruct (ingestor_node_shape E input) as [[Ht _]|(dir & r & wd & Hft & Ht & Hwd & Hor & _)];
    rewrite Ht; intros Hz; [discriminate|].
  exists dir, r, wd. rewrite !lookup_after_ingestion. decide_keys. rewrite Hft, Hwd.
  repeat split; [|exact Hor].
  intros Hnil. rewrite Hnil in Hz. discriminate.
Qed.

(* ===================================================================== *)
(** ** The analysis branches and the barrier *)

Lemma branch_node_returns E n key label skipped (st : State) ft :
  st !! "warnings" = None ->
  st !! "file_tree" = Some (JObj ft) ->
  (forall s : State, skipped s !! key = Some (JArr [])) ->
  exists u fs,
    branch_node E n key label skipped st = (Returned u, st) /\
    u !! key = Some (JArr fs).
Proof.
  intros Hw Hft Hsk. unfold branch_node, get_file_list, append_warning. rewrite Hw, Hft.
  destruct (truthy_opt (st !! "error")); [by eauto|].
  destruct (negb (truthy_opt (st !! "working_directory"))); [by eauto|].
  destruct (negb (truthy (dict_get ft "files" (JArr [])))); [by eauto|].
  destruct (analyze_directory E n _ _) as [fs|e]; eexists _, _; split; try reflexivity.
  - apply lookup_singleton_eq.
  - apply lookup_insert_eq.
Qed.

Lemma node_fn_branch_returns E n (st : State) ft :
  n ∈ branches ->
  st !! "warnings" = None ->
  st !! "file_tree" = Some (JObj ft) ->
  exists u fs,
    node_fn E n st = (Returned u, st, []) /\ u !! findings_key n = Some (JArr fs).
Proof.
  intros Hn Hw Hft. unfold branches in Hn.
  apply elem_of_cons in Hn as [->|Hn]; [|apply elem_of_cons in Hn as [->|Hn];
    [|apply elem_of_cons in Hn as [->|Hn]; [|by apply elem_of_nil in Hn]]];
  cbn [node_fn findings_key]; unfold security_node, performance_node, style_node.
  - destruct (branch_node_returns E Performance "performance_findings"
      "Performance analysis failed: " (fun _ => {["performance_findings" := JArr []]}) st ft Hw Hft)
      as (u & fs & -> & Hu); [intros; apply lookup_singleton_eq|eauto].
  - destruct (branch_node_returns E Security "security_findings" "Security analysis failed: "
      (fun st => <["security_findings" := JArr []]> st) st ft Hw Hft) as (u & fs & -> & Hu);
      [intros; apply lookup_insert_eq|eauto].
  - destruct (branch_node_returns E Style "style_findings" "Style analysis failed: "
      (fun _ => {["style_findings" := JArr []]}) st ft Hw Hft) as (u & fs & -> & Hu);
      [intros; apply lookup_singleton_eq|eauto].
Qed.

Lemma run_branches_returns E (st : State) ft :
  st !! "warnings" = None ->
  st !! "file_tree" = Some (JObj ft) ->
  exists u1 u2 u3,
    run_nodes E branches st =
      (Returned [(Performance, u2); (Security, u1); (Style, u3)], st, map EvStage branches) /\
    (exists fs, u1 !! "security_findings" = Some (JArr fs)) /\
    (exists fs, u2 !! "performance_findings" = Some (JArr fs)) /\
    (exists fs, u3 !! "style_findings" = Some (JArr fs)).
Proof.
  intros Hw Hft.
  destruct (node_fn_branch_returns E Security st ft) as (u1 & f1 & H1 & Hu1);
    [apply (bool_decide_unpack _); vm_compute; exact I|assumption|assumption|].
  destruct (node_fn_branch_returns E Performance st ft) as (u2 & f2 & H2 & Hu2);
    [apply (bool_decide_unpack _); vm_compute; exact I|assumption|assumption|].
  destruct (node_fn_branch_returns E Style st ft) as (u3 & f3 & H3 & Hu3);
    [apply (bool_decide_unpack _); vm_compute; exact I|assumption|assumption|].
  exists u1, u2, u3. unfold branches. cbn [run_nodes]. rewrite H2, H1, H3.
  cbn [findings_key] in *. repeat split; eauto.
Qed.

Lemma key_not_shared (n m : node) :
  n ∈ branches -> m ∈ branches -> findings_key n ∈ write_keys m -> n = m.
Proof.
  unfold branches. intros Hn Hm.
  repeat (apply elem_of_cons in Hn as [->|Hn]); try (by apply elem_of_nil in Hn);
  repeat (apply elem_of_cons in Hm as [->|Hm]); try (by apply elem_of_nil in Hm);
  try reflexivity; intros H; exfalso; revert H;
  apply (bool_decide_unpack _); vm_compute; exact I.
Qed.

(** C2. In every run whose initial record has no warnings yet and that
    passes the gate, the three branches return their dictionaries, and in
    whatever order these are merged at the barrier the merged record holds
    the finding list of each branch and every warning of each branch. *)
Theorem barrier_merge_keeps_all_branches (E : Env) (input : State) :
  input !! "warnings" = None ->
  fst (should_continue_to_agents (after_ingestion E input)) = Continue ->
  exists upds,
    run_nodes E branches (after_gate E input) =
      (Returned upds, after_gate E input, map EvStage branches) /\
    map fst upds = branches /\
    forall order, order ≡ₚ upds ->
    forall n u, (n, u) ∈ upds ->
      (exists fs, u !! findings_key n = Some (JArr fs) /\
                  merge_all (after_gate E input) order !! findings_key n = Some (JArr fs)) /\
      (forall w, w ∈ warnings_of u -> w ∈ warnings_of (merge_all (after_gate E input) order)).
Proof.
  intros Hw Hgate.
  destruct (passed_gate_shape E input Hw Hgate) as (_ & _ & Hw2 & dir & r & wd & Hft & _).
  destruct (run_branches_returns E _ _ Hw2 Hft) as (u1 & u2 & u3 & Hrun & H1 & H2 & H3).
  exists [(Performance, u2); (Security, u1); (Style, u3)].
  split; [exact Hrun|]. split; [reflexivity|].
  intros order Hperm n u Hin.
  assert (Hn : n ∈ branches /\ exists fs, u !! findings_key n = Some (JArr fs)).
  { repeat (apply elem_of_cons in Hin as [Heq|Hin]; [inversion Heq; subst; split;
      [apply (bool_decide_unpack _); vm_compute; exact I|assumption]|]).
    by apply elem_of_nil in Hin. }
  destruct Hn as [Hn [fs Hfs]]. split.
  - exists fs. split; [exact Hfs|].
    apply lookup_merge_all_agree.
    + destruct n; cbn; congruence.
    + intros m u' Hin' Hk. rewrite Hperm in Hin'.
      assert (Hm : m ∈ branches).
      { repeat (apply elem_of_cons in Hin' as [Heq|Hin']; [inversion Heq; subst;
          apply (bool_decide_unpack _); vm_compute; exact I|]).
        by apply elem_of_nil in Hin'. }
      pose proof (key_not_shared n m Hn Hm Hk) as <-.
      assert (u' = u) as ->; [|exact Hfs].
      clear -Hin Hin'.
      repeat (apply elem_of_cons in Hin as [Heq|Hin]; [inversion Heq; subst|]);
        try (by apply elem_of_nil in Hin);
      repeat (apply elem_of_cons in Hin' as [Heq'|Hin']; [inversion Heq'; subst|]);
        try (by apply elem_of_nil in Hin'); reflexivity.
    + right. exists n, u. split; [by rewrite Hperm|].
      clear -Hn. unfold branches in Hn.
      repeat (apply elem_of_cons in Hn as [->|Hn]); try (by apply elem_of_nil in Hn);
        apply (bool_decide_unpack _); vm_compute; exact I.
  - intros w Hwin. apply (warnings_merge_all order _ n u); [by rewrite Hperm| |exact Hwin].
    clear -Hn. unfold branches in Hn.
    repeat (apply elem_of_cons in Hn as [->|Hn]); try (by apply elem_of_nil in Hn);
      apply (bool_decide_unpack _); vm_compute; exact I.
Qed.

Lemma barrier_merge_keeps_all_branches_witness :
  exists upds,
    run_nodes failing_env branches (after_gate failing_env remote_input) =
      (Returned upds, after_gate failing_env remote_input, map EvStage branches) /\
    map fst upds = branches /\
    forall order, order ≡ₚ upds ->
    forall n u, (n, u) ∈ upds ->
      (exists fs, u !! findings_key n = Some (JArr fs) /\
                  merge_all (after_gate failing_env remote_input) order !! findings_key n =
                    Some (JArr fs)) /\
      (forall w, w ∈ warnings_of u ->
                 w ∈ warnings_of (merge_all (after_gate failing_env remote_input) order)).
Proof.
  apply (barrier_merge_keeps_all_branches failing_env remote_input).
  - vm_compute. reflexivity.
  - vm_compute. reflexivity.
Defined.

(* ===================================================================== *)
(** ** A single failing branch *)



Lemma stages_app a b : stages (a ++ b) = (stages a ++ stages b)%list.
Proof. induction a as [|[] a IH]; cbn; rewrite ?IH; reflexivity. Qed.

Lemma stages_cleanup temps : stages (IngestorAgent.cleanup temps) = [].
Proof. unfold IngestorAgent.cleanup. induction temps; cbn; auto. Qed.

Lemma ingest_events E temps p :
  stages (snd (IngestorAgent.ingest E temps p)) = [].
Proof.
  unfold IngestorAgent.ingest. destruct (is_git_url E p).
  - unfold IngestorAgent._ingest_git_repository, clone_repository.
    destruct (negb (is_git_url E p)); [reflexivity|].
    destruct (clone_from E p (mkdtemp E)) as [[]|e].
    + destruct (scan_local_directory E (mkdtemp E)); reflexivity.
    + destruct (exn_cls e); reflexivity.
  - unfold IngestorAgent._ingest_local_directory.
    destruct (scan_local_directory E (resolve E p)); reflexivity.
Qed.

Lemma ingestor_no_stage_events E (input : State) :
  stages (snd (ingestor_node E input)) = [].
Proof.
  unfold ingestor_node.
  destruct (negb (truthy_opt (input !! "input_path"))); [reflexivity|].
  destruct (input !! "input_path") as [[| | | |p| |]|]; try reflexivity.
  pose proof (ingest_events E [] p) as Hev.
  destruct (IngestorAgent.ingest E [] p) as [[result temps] ev]. cbn [snd] in Hev.
  destruct (negb (IngestorAgent.success result)).
  { cbn [snd]. by rewrite stages_app, Hev, stages_cleanup. }
  destruct (IngestorAgent.file_tree result) as [| | | | | |ft];
    try (cbn [snd]; by rewrite stages_app, Hev, stages_cleanup).
  destruct (ft !! "total_files"); cbn [snd];
    [exact Hev|by rewrite stages_app, Hev, stages_cleanup].
Qed.








(* ===================================================================== *)
(** ** The gate and the stages that run after it *)

(** The gate by itself does what it says: with an error already set, or
    with no file in the inventory, it answers [End] and leaves an error in
    the dictionary it was given. *)
Lemma gate_halts (st : State) :
  truthy_opt (st !! "error") = true \/ eq_zero (dict_get st "total_files" (JInt 0)) = true ->
  fst (should_continue_to_agents st) = End /\
  truthy_opt (snd (should_continue_to_agents st) !! "error") = true.
Proof.
  unfold should_continue_to_agents. intros H.
  destruct (truthy_opt (st !! "error")) eqn:He; [by split|].
  destruct H as [H|H]; [discriminate|]. rewrite H. cbn [fst snd].
  split; [reflexivity|]. by rewrite lookup_insert_eq.
Qed.

(** When the gate answers [End], the performance stage is entered all the
    same, right after ingestion: its edge from the ingestor is not
    conditional. *)
Lemma halted_run_enters_performance E (input : State) :
  fst (should_continue_to_agents (after_ingestion E input)) = End ->
  exists rest,
    stages (snd (invoke E create_review_graph input)) = Ingestor :: Performance :: rest.
Proof.
  intros Hgate. rewrite invoke_unfold. cbv zeta. rewrite Hgate.
  cbn [branches_for run_nodes].
  destruct (node_fn E Performance (after_gate E input)) as [[u s] ev].
  destruct u as [upd|e].
  - destruct (node_fn E Style s) as [[u2 s2] ev2].
    destruct u2; cbn [snd app stages]; rewrite !stages_app, ingestor_no_stage_events;
      cbn [app stages]; eauto.
  - cbn [snd app stages]. rewrite !stages_app, ingestor_no_stage_events.
    cbn [app stages]. eauto.
Qed.

(** C1, the failing inputs. A local directory without any file to analyse:
    ingestion counts zero files, the gate answers [End] and sets the
    error; a run without input path: ingestion sets the error, the gate
    answers [End].  In both runs the performance stage, the style stage and
    the aggregator are executed after the gate. *)
Theorem halted_run_still_runs_stages (shares : bool) :
  let E := sample_env [] all_fine shares in
  let no_files := initial_state "/srv/empty" "out" in
  let no_path := initial_state "" "out" in
  after_ingestion E no_files !! "total_files" = Some (JInt 0) /\
  fst (should_continue_to_agents (after_ingestion E no_files)) = End /\
  snd (should_continue_to_agents (after_ingestion E no_files)) !! "error" =
    Some (JStr "No files found to analyze") /\
  stages (snd (invoke E create_review_graph no_files)) =
    [Ingestor; Performance; Style; Aggregator] /\
  after_ingestion E no_path !! "error" = Some (JStr "No input_path provided in state") /\
  fst (should_continue_to_agents (after_ingestion E no_path)) = End /\
  stages (snd (invoke E create_review_graph no_path)) =
    [Ingestor; Performance; Style; Aggregator].
Proof. destruct shares; vm_compute; repeat split. Qed.

(* ===================================================================== *)
(** ** Release of the transient working directory during a run *)




(** C3, the failing input. A run on a remote repository in which the
    clone, the scan, the three analyses and the report all succeed: the
    working directory is the transient clone, every stage runs, the final
    record holds the report, and [cleanup_repository] is never called. *)
Theorem remote_run_never_releases (shares : bool) :
  let E := sample_env [sample_file] all_fine shares in
  let r := invoke E create_review_graph (initial_state "https://example.org/team/repo" "out") in
  match fst r with
  | Returned final =>
      final !! "source_type" = Some (JStr "git") /\
      final !! "is_temp_directory" = Some (JBool true) /\
      final !! "working_directory" = Some (JStr "/tmp/code_review_x") /\
      final !! "final_report" = Some (JStr "# report") /\
      final !! "error" = None
  | Raised _ => False
  end /\
  snd r = [EvStage Ingestor;
           EvClone "https://example.org/team/repo" "/tmp/code_review_x";
           EvScan "/tmp/code_review_x";
           EvStage Performance; EvStage Security; EvStage Style; EvStage Aggregator] /\
  releases (snd r) = [].
Proof. destruct shares; vm_compute; repeat split. Qed.

(* ===================================================================== *)
(** ** Further facts about the string operations *)

Lemma append_nil s : "" ++ s = s.
Proof. reflexivity. Qed.

Lemma append_cons a r s : String a r ++ s = String a (r ++ s).
Proof. reflexivity. Qed.

Lemma append_nil_r s : s ++ "" = s.
Proof. induction s as [|a s IH]; [reflexivity|]. rewrite append_cons, IH. reflexivity. Qed.

Lemma append_assoc a b c : (a ++ b) ++ c = a ++ b ++ c.
Proof. induction a as [|x a IH]; [reflexivity|]. rewrite !append_cons, IH. reflexivity. Qed.

Lemma len_app a b : len (a ++ b) = len a + len b.
Proof.
  induction a as [|x a IH]; [rewrite append_nil; unfold len; cbn; lia|].
  rewrite append_cons, !len_cons, IH. lia.
Qed.

Lemma count_app c a b : count c (a ++ b) = count c a + count c b.
Proof.
  induction a as [|x a IH]; [rewrite append_nil; cbn [count]; lia|].
  rewrite append_cons. cbn [count]. rewrite IH. lia.
Qed.

Lemma count_nonneg c s : 0 <= count c s.
Proof. induction s as [|a r IH]; cbn [count]; [lia|]. destruct (char_is a c); lia. Qed.

Lemma count_repeat c d n :
  count c (repeat_char d n) = if char_is d c then Z.of_nat n else 0.
Proof.
  induction n as [|n IH]; [by destruct (char_is d c)|].
  cbn [repeat_char count]. rewrite IH. destruct (char_is d c); lia.
Qed.

Lemma drop_app pre s : drop (String.length pre) (pre ++ s) = s.
Proof. induction pre as [|a pre IH]; [reflexivity|]. rewrite append_cons. exact IH. Qed.

Lemma take_app s suf : take (String.length s) (s ++ suf) = s.
Proof.
  induction s as [|a s IH]; [rewrite append_nil; by destruct suf|].
  rewrite append_cons. cbn [String.length take]. by rewrite IH.
Qed.

Lemma slice_prefix s suf : slice (s ++ suf) 0 (len (s ++ suf) - len suf) = s.
Proof.
  unfold slice. rewrite len_app.
  replace (len s + len suf - len suf - 0) with (len s) by lia.
  unfold len. rewrite Nat2Z.id. cbn [Z.to_nat drop]. apply take_app.
Qed.

Lemma find_from_app c pre s i :
  count c pre = 0 -> find_from c (pre ++ s) i = find_from c s (i + len pre).
Proof.
  revert i. induction pre as [|a pre IH]; intros i H.
  - rewrite append_nil. f_equal. unfold len. cbn. lia.
  - rewrite append_cons. cbn [find_from]. cbn [count] in H.
    pose proof (count_nonneg c pre).
    destruct (char_is a c); [lia|]. rewrite IH by lia. rewrite len_cons. f_equal. lia.
Qed.

Lemma rfind_from_none c s i : count c s = 0 -> rfind_from c s i = -1.
Proof.
  revert i. induction s as [|a r IH]; intros i H; [reflexivity|].
  cbn [count] in H. pose proof (count_nonneg c r).
  rewrite rfind_from_cons, IH by (destruct (char_is a c); lia).
  destruct (char_is a c); [lia|reflexivity].
Qed.

Lemma rfind_from_app_suffix c s suf i :
  0 <= i -> endswith_char c s = true -> count c suf = 0 ->
  rfind_from c (s ++ suf) i = i + len s - 1.
Proof.
  revert i. induction s as [|a r IH]; intros i Hi He Hs; [discriminate|].
  rewrite append_cons, rfind_from_cons.
  destruct r as [|b r'].
  - rewrite append_nil. rewrite (rfind_from_none c suf) by exact Hs.
    cbn in He. rewrite He. unfold len. cbn. lia.
  - rewrite endswith_char_cons in He. rewrite (IH (i + 1)) by (lia || assumption).
    rewrite (len_cons a). pose proof (len_nonneg r'). rewrite (len_cons b) in *.
    destruct (Z.eqb_spec (i + 1 + (len r' + 1) - 1) (-1)); lia.
Qed.

Lemma rfind_from_app_prefix c pre s i :
  rfind_from c s (i + len pre) <> -1 ->
  rfind_from c (pre ++ s) i = rfind_from c s (i + len pre).
Proof.
  revert i. induction pre as [|a pre IH]; intros i H.
  - rewrite append_nil. f_equal. unfold len. cbn. lia.
  - rewrite append_cons, rfind_from_cons.
    rewrite len_cons in H. replace (i + (len pre + 1)) with (i + 1 + len pre) in H by lia.
    rewrite IH by exact H. rewrite len_cons.
    replace (i + (len pre + 1)) with (i + 1 + len pre) by lia.
    destruct (Z.eqb_spec (rfind_from c s (i + 1 + len pre)) (-1)); [contradiction|reflexivity].
Qed.

Lemma endswith_char_app_last c s : endswith_char c (s ++ String c EmptyString) = true.
Proof.
  induction s as [|a s IH].
  - rewrite append_nil. cbn. unfold char_is. apply Ascii.eqb_refl.
  - rewrite append_cons.
    destruct (s ++ String c "") eqn:E; [destruct s; discriminate|].
    rewrite endswith_char_cons. exact IH.
Qed.

Lemma all_chars_app p a b : all_chars p (a ++ b) = all_chars p a && all_chars p b.
Proof.
  induction a as [|x a IH]; [reflexivity|].
  rewrite append_cons. cbn [all_chars]. rewrite IH. apply andb_assoc.
Qed.

Lemma all_chars_repeat p c n : p c = true -> all_chars p (repeat_char c n) = true.
Proof.
  intros H. induction n as [|n IH]; [reflexivity|].
  cbn [repeat_char all_chars]. by rewrite H, IH.
Qed.

Lemma contains_char c s : contains (String c EmptyString) s = negb (count c s =? 0).
Proof.
  unfold contains. induction s as [|a r IH].
  - reflexivity.
  - rewrite after_first_unfold. cbn [startswith count].
    pose proof (count_nonneg c r).
    rewrite andb_true_r.
    unfold char_is at 1. rewrite Ascii.eqb_sym. fold (char_is a c).
    destruct (char_is a c).
    + destruct (Z.eqb_spec (1 + count c r) 0); [lia|reflexivity].
    + rewrite IH. reflexivity.
Qed.

Lemma rstrip_by_app_last p s c :
  p c = true -> rstrip_by p (s ++ String c EmptyString) = rstrip_by p s.
Proof.
  intros Hp. induction s as [|a s IH].
  - rewrite append_nil. cbn. rewrite Hp. reflexivity.
  - rewrite append_cons. cbn [rstrip_by]. rewrite IH. reflexivity.
Qed.

(** Stripping on the right keeps a text whose end holds no character to
    strip. *)
Lemma rstrip_by_keeps p b s :
  s <> "" -> (forall a, p a = true -> count a s = 0) ->
  rstrip_by p (b ++ s) = b ++ s.
Proof.
  intros Hne Hp.
  assert (Hs : rstrip_by p s = s).
  { clear Hne. induction s as [|a r IH]; [reflexivity|].
    assert (Hpa : p a = false).
    { destruct (p a) eqn:E; [|reflexivity]. specialize (Hp a E). cbn [count] in Hp.
      unfold char_is in Hp. rewrite Ascii.eqb_refl in Hp. pose proof (count_nonneg a r). lia. }
    cbn [rstrip_by]. rewrite IH.
    - rewrite Hpa. destruct r; reflexivity.
    - intros x Hx. specialize (Hp x Hx). cbn [count] in Hp.
      pose proof (count_nonneg x r). destruct (char_is a x); lia. }
  induction b as [|a b IH]; [rewrite append_nil; exact Hs|].
  rewrite append_cons. cbn [rstrip_by]. rewrite IH.
  destruct (b ++ s) eqn:E; [|reflexivity].
  destruct b; [rewrite append_nil in E; contradiction|discriminate].
Qed.

Lemma endswith_unfold suf s :
  endswith suf s =
  String.eqb suf s || match s with EmptyString => false | String _ r => endswith suf r end.
Proof. destruct s; reflexivity. Qed.

Lemma endswith_app suf b : endswith suf (b ++ suf) = true.
Proof.
  induction b as [|a b IH].
  - rewrite append_nil, endswith_unfold, String.eqb_refl. reflexivity.
  - rewrite append_cons, endswith_unfold, IH. apply orb_true_r.
Qed.

Lemma eqb_count_ne c suf s : count c suf <> count c s -> String.eqb suf s = false.
Proof. intros H. apply String.eqb_neq. intros ->. contradiction. Qed.

(** A suffix without the separator is a suffix of [b ++ c ++ s] only if
    it is one of [s]. *)
Lemma endswith_app_sep c suf b s :
  count c suf = 0 -> endswith suf s = false ->
  endswith suf (b ++ String c s) = false.
Proof.
  intros Hc Hs. pose proof (count_nonneg c s) as Hn.
  induction b as [|a b IH].
  - rewrite append_nil, endswith_unfold, Hs, orb_false_r.
    apply (eqb_count_ne c). cbn [count]. unfold char_is. rewrite Ascii.eqb_refl. lia.
  - rewrite append_cons, endswith_unfold, IH, orb_false_r.
    apply (eqb_count_ne c). cbn [count]. rewrite count_app. cbn [count].
    unfold char_is at 2. rewrite Ascii.eqb_refl.
    pose proof (count_nonneg c b). destruct (char_is a c); lia.
Qed.

Lemma split_cons c a r :
  split c (String a r) =
  if char_is a c then EmptyString :: split c r
  else match split c r with
       | [] => [String a EmptyString]
       | p :: ps => String a p :: ps
       end.
Proof. reflexivity. Qed.

Lemma split_nonempty c s : split c s <> [].
Proof.
  induction s as [|a r IH]; [discriminate|].
  rewrite split_cons. destruct (char_is a c); [discriminate|].
  destruct (split c r); discriminate.
Qed.

Lemma last_part_cons p q ps : last_part (p :: q :: ps) = last_part (q :: ps).
Proof. reflexivity. Qed.

(** The last part is what follows the last separator: it holds no
    separator, and no character more often than the text does. *)
Lemma last_part_split c d s :
  count c (last_part (split c s)) = 0 /\
  count d (last_part (split c s)) <= count d s.
Proof.
  induction s as [|a r [IH1 IH2]]; [cbn; lia|].
  rewrite split_cons. pose proof (split_nonempty c r) as Hne.
  destruct (char_is a c) eqn:Hac.
  - destruct (split c r) as [|p ps] eqn:Hs; [contradiction|].
    rewrite last_part_cons. split; [exact IH1|].
    cbn [count]. destruct (char_is a d); lia.
  - destruct (split c r) as [|p ps] eqn:Hs; [contradiction|].
    destruct ps as [|q ps].
    + unfold last_part in *. cbn [List.last count] in *. rewrite Hac.
      destruct (char_is a d); lia.
    + rewrite last_part_cons. rewrite last_part_cons in IH1, IH2.
      split; [exact IH1|]. cbn [count]. destruct (char_is a d); lia.
Qed.

Lemma split_none c s : count c s = 0 -> split c s = [s].
Proof.
  induction s as [|a r IH]; [reflexivity|].
  cbn [count]. pose proof (count_nonneg c r) as Hn. intros H.
  rewrite split_cons. destruct (char_is a c); [lia|].
  rewrite IH by lia. reflexivity.
Qed.

Lemma split_app_sep_tail c b s p ps :
  split c (b ++ String c s) = p :: ps -> ps <> [].
Proof.
  revert p ps. induction b as [|x b IHb]; intros p ps Hs.
  - rewrite append_nil, split_cons in Hs. unfold char_is in Hs.
    rewrite Ascii.eqb_refl in Hs. inversion Hs. apply split_nonempty.
  - rewrite append_cons, split_cons in Hs.
    pose proof (split_nonempty c (b ++ String c s)) as Hne.
    destruct (split c (b ++ String c s)) as [|p' ps'] eqn:Hs'; [contradiction|].
    specialize (IHb p' ps' eq_refl).
    destruct (char_is x c); inversion Hs; subst; [discriminate|exact IHb].
Qed.

Lemma last_part_split_app c b s :
  last_part (split c (b ++ String c s)) = last_part (split c s).
Proof.
  induction b as [|a b IH].
  - rewrite append_nil, split_cons. unfold char_is. rewrite Ascii.eqb_refl.
    pose proof (split_nonempty c s). destruct (split c s); [contradiction|reflexivity].
  - rewrite append_cons, split_cons.
    pose proof (split_nonempty c (b ++ String c s)) as Hne.
    destruct (split c (b ++ String c s)) as [|p ps] eqn:Hs; [contradiction|].
    pose proof (split_app_sep_tail c b s p ps Hs) as Hps.
    destruct ps as [|q ps]; [contradiction|].
    destruct (char_is a c); rewrite <- IH; reflexivity.
Qed.

(* ===================================================================== *)
(** ** [cleanup_repository] and [extract_repo_name] *)

Lemma rmtree_confined (E : Env) (files : gset string) (p : string) :
  rmtree E files p ⊆ files /\
  (forall q, q ∈ files -> under p q = false -> q ∈ rmtree E files p) /\
  (is_directory E p = false -> rmtree E files p = files) /\
  (is_directory E p = true ->
   (forall r, r ∈ files -> removal_fails E r = false) ->
   forall q, under p q = true -> q ∉ rmtree E files p).
Proof.
  unfold rmtree. destruct (is_directory E p).
  - split; [|split; [|split]].
    + intros q Hq. apply elem_of_filter in Hq. tauto.
    + intros q Hq Hu. apply elem_of_filter. rewrite Hu. tauto.
    + discriminate.
    + intros _ Hf q Hu Hq. apply elem_of_filter in Hq as [Hq _].
      rewrite Hu, (stays_false E files q Hf) in Hq. discriminate.
  - split; [done|]. split; [auto|]. split; [reflexivity|discriminate].
Qed.

(** X1. [cleanup_repository] raises only when the existence test on the
    path raises, and then the error of that test.  Otherwise it returns,
    and what it deletes is confined: it creates nothing; it keeps every
    entry that is neither the path nor below it; it deletes nothing at
    all when the path does not exist, when the path is no directory, or
    when the path does not start with the temporary root while [force] is
    off; and when the path is an existing directory, the test on the
    temporary root or [force] lets the call proceed and no removal fails,
    nothing at or below the path is left. *)
Theorem cleanup_repository_confined (E : Env) (files : gset string) (p : string)
  (force : bool) :
  match exists_raises E p with
  | Some e => cleanup_repository E files p force = (Raised e, [])
  | None =>
      exists files' log,
        cleanup_repository E files p force = (Returned files', log) /\
        files' ⊆ files /\
        (forall q, q ∈ files -> under p q = false -> q ∈ files') /\
        (p ∉ files \/ is_directory E p = false \/
         (startswith (gettempdir E) p = false /\ force = false) -> files' = files) /\
        (p ∈ files -> is_directory E p = true ->
         startswith (gettempdir E) p = true \/ force = true ->
         (forall r, r ∈ files -> removal_fails E r = false) ->
         forall q, under p q = true -> q ∉ files')
  end.
Proof.
  destruct (rmtree_confined E files p) as (Hsub & Hkeep & Hfile & Hgone).
  unfold cleanup_repository.
  destruct (exists_raises E p); [reflexivity|].
  destruct (bool_decide (p ∈ files)) eqn:Hin; cbn [negb].
  - apply bool_decide_eq_true_1 in Hin.
    destruct (startswith (gettempdir E) p) eqn:Ht; cbn [negb andb].
    + eexists _, _. split; [reflexivity|]. split; [exact Hsub|]. split; [exact Hkeep|].
      split.
      * intros [H|[H|[H _]]]; [contradiction|exact (Hfile H)|discriminate].
      * intros _ Hd _ Hf. exact (Hgone Hd Hf).
    + destruct force; cbn [negb].
      * eexists _, _. split; [reflexivity|]. split; [exact Hsub|]. split; [exact Hkeep|].
        split.
        -- intros [H|[H|[_ H]]]; [contradiction|exact (Hfile H)|discriminate].
        -- intros _ Hd _ Hf. exact (Hgone Hd Hf).
      * eexists _, _. split; [reflexivity|]. split; [done|]. split; [auto|].
        split; [auto|]. intros _ _ [H|H]; discriminate.
  - apply bool_decide_eq_false_1 in Hin.
    eexists _, _. split; [reflexivity|]. split; [done|]. split; [auto|].
    split; [auto|]. intros H. contradiction.
Qed.

(** The tail of [extract_repo_name], from the last path component on. *)
Lemma extract_tail name :
  name <> "" -> count ":" name = 0 ->
  (if String.eqb (if contains ":" name then last_part (split ":" name) else name) ""
   then "unknown_repo"
   else if contains ":" name then last_part (split ":" name) else name) = name.
Proof.
  intros Hne Hc. rewrite contains_char, Hc. cbn [Z.eqb negb].
  apply String.eqb_neq in Hne. rewrite Hne. reflexivity.
Qed.

(** X2. For every text, the repository name extracted is not empty and
    is a single component: it holds neither a slash nor a colon. *)
Theorem extract_repo_name_is_component (repo_url : string) :
  extract_repo_name repo_url <> "" /\
  count "/" (extract_repo_name repo_url) = 0 /\
  count ":" (extract_repo_name repo_url) = 0.
Proof.
  unfold extract_repo_name.
  set (url := if endswith ".git" (rstrip_char "/" repo_url) then _ else _).
  set (name := last_part (split "/" url)).
  assert (Hs : count "/" name = 0) by exact (proj1 (last_part_split "/" "/" url)).
  set (name' := if contains ":" name then _ else name).
  assert (H' : count "/" name' = 0 /\ count ":" name' = 0).
  { subst name'. rewrite contains_char.
    destruct (Z.eqb_spec (count ":" name) 0) as [E|E]; cbn [negb].
    - split; assumption.
    - pose proof (last_part_split ":" "/" name) as [H1 H2].
      pose proof (count_nonneg "/" (last_part (split ":" name))). split; [lia|exact H1]. }
  destruct (String.eqb_spec name' "") as [E|E].
  - split; [discriminate|]. split; reflexivity.
  - split; [exact E|exact H'].
Qed.

(** X3. A slash added at the end of the URL does not change the name
    extracted. *)
Theorem extract_repo_name_trailing_slash (repo_url : string) :
  extract_repo_name (repo_url ++ "/") = extract_repo_name repo_url.
Proof.
  unfold extract_repo_name, rstrip_char.
  rewrite (rstrip_by_app_last (fun a => char_is a "/") repo_url "/" eq_refl). reflexivity.
Qed.

(** X4. For a non-empty [name] without slash and colon, the name
    extracted from [base/name.git] is [name]; and so is the one extracted
    from [base/name], when [name] does not itself end with [.git]. *)
Theorem extract_repo_name_last_component (base name : string) :
  name <> "" -> count "/" name = 0 -> count ":" name = 0 ->
  extract_repo_name (base ++ "/" ++ name ++ ".git") = name /\
  (endswith ".git" name = false -> extract_repo_name (base ++ "/" ++ name) = name).
Proof.
  intros Hne Hs Hc. split.
  - unfold extract_repo_name, rstrip_char.
    replace (base ++ "/" ++ name ++ ".git") with ((base ++ "/" ++ name) ++ ".git")
      by (rewrite !append_assoc; reflexivity).
    rewrite (rstrip_by_keeps _ (base ++ "/" ++ name) ".git");
      [|discriminate|intros a Ha; apply char_is_true in Ha; subst a; reflexivity].
    rewrite endswith_app.
    change 4 with (len ".git"). rewrite slice_prefix.
    change ("/" ++ name) with (String "/" name).
    rewrite last_part_split_app, (split_none _ _ Hs).
    change (last_part [name]) with name. apply extract_tail; assumption.
  - intros He. unfold extract_repo_name, rstrip_char.
    replace (base ++ "/" ++ name) with ((base ++ "/") ++ name)
      by (rewrite !append_assoc; reflexivity).
    rewrite (rstrip_by_keeps _ (base ++ "/") name);
      [|exact Hne|intros a Ha; apply char_is_true in Ha; subst a; exact Hs].
    rewrite append_assoc. change ("/" ++ name) with (String "/" name).
    rewrite (endswith_app_sep "/" ".git" base name eq_refl He).
    rewrite last_part_split_app, (split_none _ _ Hs).
    change (last_part [name]) with name. apply extract_tail; assumption.
Qed.

Lemma extract_repo_name_last_component_witness :
  extract_repo_name ("https://github.com/user" ++ "/" ++ "my-repo" ++ ".git") = "my-repo" /\
  extract_repo_name ("https://github.com/user" ++ "/" ++ "my-repo") = "my-repo".
Proof.
  destruct (extract_repo_name_last_component "https://github.com/user" "my-repo")
    as [H1 H2]; [discriminate|reflexivity|reflexivity|].
  split; [exact H1|apply H2; reflexivity].
Defined.

(* ===================================================================== *)
(** ** The extractor on wrapped, blank and truncated responses *)

Lemma well_bracketed_ends t s :
  well_bracketed t s = true ->
  exists r, s = String (opening t) r /\ endswith_char (closing t) s = true /\ 0 < len r.
Proof.
  destruct t as [| |inst]; [| |discriminate]; unfold well_bracketed; intros H;
    apply andb_prop in H as [Hs He]; apply startswith_char in Hs as [r ->];
    exists r; (split; [reflexivity|]); (split; [exact He|]);
    apply (endswith_char_len _ _ _ He); discriminate.
Qed.

(** X5. Prose around the JSON text is ignored. When the response holds no
    code fence, the text before the JSON holds no opening bracket of the
    expected shape and the text after it no closing one, the extractor
    hands exactly the JSON text to the strict parser, once, and returns
    its value. *)
Theorem prose_around_json_is_ignored (t : expected) (pre body suf : string) (v : json) :
  contains fence (pre ++ body ++ suf) = false ->
  count (opening t) pre = 0 ->
  count (closing t) suf = 0 ->
  well_bracketed t body = true ->
  Json.loads body = Returned v ->
  safe_parse_json_trace (TextStr (pre ++ body ++ suf)) t = ([body], Returned v).
Proof.
  intros Hc Hpre Hsuf Hb Hl.
  destruct (well_bracketed_ends t body Hb) as (r & Hbody & He & Hlen).
  assert (Hcand : locate_candidate (pre ++ body ++ suf) t = body).
  { unfold contains in Hc.
    destruct (after_first fence (pre ++ body ++ suf)) eqn:Hf; [discriminate|].
    unfold locate_candidate.
    rewrite (search_fence_none _ _ (no_fence_no_json_fence _ Hf)), (search_fence_none _ _ Hf).
    assert (Hfind : py_find (opening t) (pre ++ body ++ suf) = len pre).
    { unfold py_find. rewrite find_from_app by exact Hpre. rewrite Hbody.
      rewrite append_cons. cbn [find_from]. unfold char_is. rewrite Ascii.eqb_refl. lia. }
    assert (Hrfind : py_rfind (closing t) (pre ++ body ++ suf) = len pre + len body - 1).
    { unfold py_rfind.
      assert (H1 : rfind_from (closing t) (body ++ suf) (0 + len pre) =
                   0 + len pre + len body - 1).
      { apply rfind_from_app_suffix; [pose proof (len_nonneg pre); lia|exact He|exact Hsuf]. }
      rewrite rfind_from_app_prefix; rewrite H1.
      - lia.
      - pose proof (len_nonneg pre). rewrite Hbody, len_cons. lia. }
    assert (Hslice : slice (pre ++ body ++ suf) (len pre) (len pre + len body - 1 + 1) = body).
    { unfold slice, len. rewrite Nat2Z.id.
      replace (Z.to_nat (_ + _ - 1 + 1 - _)) with (String.length body) by lia.
      rewrite drop_app. apply take_app. }
    assert (Hstrip : strip body = body).
    { rewrite Hbody. apply (strip_bracketed _ (closing t));
        [by destruct t|by destruct t|by rewrite <- Hbody]. }
    pose proof (len_nonneg pre) as Hp.
    assert (Hlb : len body = len r + 1) by (rewrite Hbody; apply len_cons).
    destruct t as [| |inst]; [| |discriminate]; cbn [opening closing] in *;
      rewrite Hfind, Hrfind;
      (destruct (Z.eqb_spec (len pre) (-1)); [lia|]);
      (destruct (Z.eqb_spec (len pre + len body - 1) (-1)); [lia|]);
      (destruct (Z.ltb_spec (len pre) (len pre + len body - 1)); [|lia]);
      cbn [negb andb]; rewrite Hslice; exact Hstrip. }
  assert (Hne : String.eqb body "" = false) by (rewrite Hbody; reflexivity).
  unfold safe_parse_json_trace.
  assert (Hte : text_is_empty (TextStr (pre ++ body ++ suf)) = false).
  { cbn [text_is_empty]. destruct pre; [rewrite Hbody|]; reflexivity. }
  rewrite Hte. cbn [text_of]. rewrite Hcand, Hne, Hl. reflexivity.
Qed.

Lemma prose_around_json_is_ignored_witness :
  safe_parse_json_trace
    (TextStr ("Sure, here it is: " ++ "[1, 2]" ++ " -- hope this helps")) PyList
  = (["[1, 2]"], Returned (JArr [JInt 1; JInt 2])).
Proof.
  apply prose_around_json_is_ignored; vm_compute; reflexivity.
Defined.

(** A text of whitespace holds no fence and no bracket, and strips to
    nothing. *)
Lemma blank_after_first sub s :
  all_chars py_isspace s = true ->
  (forall a r, sub = String a r -> py_isspace a = false) -> sub <> "" ->
  after_first sub s = None.
Proof.
  intros Hs Hsub Hne. destruct sub as [|a r]; [contradiction|].
  specialize (Hsub a r eq_refl).
  induction s as [|b s IH]; [reflexivity|].
  cbn [all_chars] in Hs. apply andb_prop in Hs as [Hb Hs].
  rewrite after_first_unfold. cbn [startswith].
  assert (Hab : char_is a b = false).
  { destruct (char_is a b) eqn:E; [|reflexivity]. apply char_is_true in E. congruence. }
  rewrite Hab. cbn [andb]. exact (IH Hs).
Qed.

Lemma blank_find c s i :
  all_chars py_isspace s = true -> py_isspace c = false -> find_from c s i = -1.
Proof.
  revert i. induction s as [|b s IH]; intros i Hs Hc; [reflexivity|].
  cbn [all_chars] in Hs. apply andb_prop in Hs as [Hb Hs]. cbn [find_from].
  destruct (char_is b c) eqn:E; [apply char_is_true in E; congruence|].
  exact (IH _ Hs Hc).
Qed.

Lemma blank_strip s : all_chars py_isspace s = true -> strip s = "".
Proof.
  intros Hs. unfold strip.
  assert (H : lstrip_by py_isspace s = "").
  { induction s as [|b s IH]; [reflexivity|].
    cbn [all_chars] in Hs. apply andb_prop in Hs as [Hb Hs].
    cbn [lstrip_by]. rewrite Hb. exact (IH Hs). }
  rewrite H. reflexivity.
Qed.

(** X6. A response made of whitespace only, as one text or in parts,
    gives the empty instance of the expected type, whatever that type is,
    and the strict parser is not called. *)
Theorem blank_response_gives_empty_instance (text : llm_text) (t : expected) :
  all_chars py_isspace (text_of text) = true ->
  safe_parse_json_trace text t = ([], Returned (empty_instance t)).
Proof.
  intros Hs. unfold safe_parse_json_trace.
  destruct (text_is_empty text); [reflexivity|].
  assert (Hcand : locate_candidate (text_of text) t = "").
  { unfold locate_candidate.
    assert (Hf : after_first fence (text_of text) = None).
    { apply blank_after_first; [exact Hs| |discriminate].
      intros a r E. inversion E. reflexivity. }
    rewrite (search_fence_none _ _ (no_fence_no_json_fence _ Hf)), (search_fence_none _ _ Hf).
    unfold py_find.
    rewrite (blank_find "[" _ 0 Hs eq_refl), (blank_find "{" _ 0 Hs eq_refl).
    destruct t; cbn; apply blank_strip; exact Hs. }
  rewrite Hcand. reflexivity.
Qed.

Lemma blank_response_gives_empty_instance_witness :
  safe_parse_json_trace (TextParts [" "; newline]) PyDict = ([], Returned (JObj ∅)).
Proof.
  apply (blank_response_gives_empty_instance (TextParts [" "; newline]) PyDict).
  vm_compute. reflexivity.
Defined.

(** What the brace completion appends, and the balance it reaches. *)
Lemma close_deficit_spec s :
  exists tail, close_deficit s = s ++ tail /\
    all_chars is_closer tail = true /\
    count "{" (close_deficit s) <= count "}" (close_deficit s).
Proof.
  unfold close_deficit.
  destruct (Z.ltb_spec (count "}" s) (count "{" s)) as [Hlt|Hge].
  - eexists. split; [reflexivity|]. split; [by apply all_chars_repeat|].
    rewrite !count_app, !count_repeat.
    replace (char_is "}" "{") with false by reflexivity.
    replace (char_is "}" "}") with true by reflexivity. lia.
  - exists "". rewrite append_nil_r. split; [reflexivity|]. split; [reflexivity|lia].
Qed.

(** X7. The repair never rewrites the candidate: the repaired text is the
    candidate without its trailing whitespace and commas, followed only by
    closing braces and brackets. Its braces are balanced or over-closed,
    and for a list it ends with the closing bracket. *)
Theorem repair_only_appends_closers (t : expected) (json_str temp_str : string) :
  repair t json_str = Some temp_str ->
  exists tail,
    temp_str = rstrip_char "," (rstrip json_str) ++ tail /\
    all_chars is_closer tail = true /\
    count "{" temp_str <= count "}" temp_str /\
    (t = PyList -> endswith_char "]" temp_str = true).
Proof.
  unfold repair. intros H.
  destruct (close_deficit_spec (rstrip_char "," (rstrip json_str)))
    as (tail & Ht & Hall & Hbal).
  destruct t as [| |inst]; [| |discriminate].
  - destruct (endswith_char "]" json_str); [discriminate|]. cbn [negb] in H.
    inversion H as [Hr]. clear H. exists (tail ++ "]").
    split; [rewrite Ht, append_assoc; reflexivity|].
    split; [rewrite all_chars_app, Hall; reflexivity|].
    split; [|intros _; apply endswith_char_app_last].
    rewrite !count_app. cbn [count].
    replace (char_is "]" "{") with false by reflexivity.
    replace (char_is "]" "}") with false by reflexivity. lia.
  - destruct (endswith_char "}" json_str); [discriminate|]. cbn [negb] in H.
    inversion H as [Hr]. clear H. exists tail.
    split; [exact Ht|]. split; [exact Hall|]. split; [exact Hbal|discriminate].
Qed.

Lemma repair_only_appends_closers_witness :
  exists tail,
    "[{}, {" ++ "}]" = rstrip_char "," (rstrip "[{}, {,  ") ++ tail /\
    all_chars is_closer tail = true /\
    count "{" ("[{}, {" ++ "}]") <= count "}" ("[{}, {" ++ "}]") /\
    (PyList = PyList -> endswith_char "]" ("[{}, {" ++ "}]") = true).
Proof.
  apply (repair_only_appends_closers PyList "[{}, {,  " ("[{}, {" ++ "}]")).
  vm_compute. reflexivity.
Defined.

(* ===================================================================== *)
(** ** The findings an agent returns *)

Lemma dom_validated c fp d : dom (validated_by c fp d) = schema c.
Proof.
  destruct c; cbn [validated_by schema];
    unfold SecurityAgent.validated_finding, PerformanceAgent.validated_finding,
      StyleAgent.validated_finding;
    rewrite !dom_insert_L, dom_empty_L; set_solver.
Qed.

Lemma validate_all_schema c fp l :
  Forall (fun f => exists d, f = JObj d /\ dom d = schema c)
         (validate_all (validated_by c fp) l).
Proof.
  induction l as [|x r IH]; [constructor|].
  destruct x; cbn [validate_all]; try exact IH.
  constructor; [|exact IH]. eexists. split; [reflexivity|apply dom_validated].
Qed.

Lemma parse_by_unfold c response fp :
  parse_by c response fp = parse_with (validated_by c fp) response.
Proof. destruct c; reflexivity. Qed.

(** X8. An agent's [_parse_llm_response] raises exactly when the
    extractor does, and then the same exception; otherwise it returns,
    and every finding it returns is a record with exactly the keys of the
    agent's finding schema, whatever the response held. *)
Theorem parsed_findings_have_schema (c : category) (response : llm_text)
  (file_path : string) :
  match safe_parse_json response PyList with
  | Raised e => parse_by c response file_path = Raised e
  | Returned _ =>
      exists findings,
        parse_by c response file_path = Returned findings /\
        Forall (fun f => exists d, f = JObj d /\ dom d = schema c) findings
  end.
Proof.
  rewrite parse_by_unfold. unfold parse_with.
  destruct (safe_parse_json response PyList) as [v|e]; [|reflexivity].
  eexists. split; [reflexivity|]. apply validate_all_schema.
Qed.

(** X9. A response that parses to a single non-empty record instead of a
    list is treated as a list of that one record: the agent returns
    exactly one finding, the validated record. *)
Theorem single_record_is_wrapped (c : category) (response : llm_text)
  (file_path : string) (d : gmap string json) :
  safe_parse_json response PyList = Returned (JObj d) ->
  d <> ∅ ->
  parse_by c response file_path = Returned [JObj (validated_by c file_path d)].
Proof.
  intros H Hne. rewrite parse_by_unfold. unfold parse_with. rewrite H.
  cbn [as_finding_list truthy]. rewrite bool_decide_eq_false_2 by exact Hne.
  reflexivity.
Qed.

Lemma single_record_is_wrapped_witness :
  parse_by StyleFinding (TextStr ("{" ++ dq ++ "line" ++ dq ++ ": 3}")) "app.py" =
  Returned [JObj (validated_by StyleFinding "app.py" {["line" := JInt 3]})].
Proof.
  apply (single_record_is_wrapped StyleFinding
           (TextStr ("{" ++ dq ++ "line" ++ dq ++ ": 3}")) "app.py" {["line" := JInt 3]}).
  - vm_compute. reflexivity.
  - apply (bool_decide_unpack _). vm_compute. exact I.
Defined.

(* ===================================================================== *)
(** ** What the analysis nodes return *)

Lemma branch_node_dom E n key label (st : State) u s' :
  branch_node E n key label (fun _ => {[key := JArr []]}) st = (Returned u, s') ->
  dom u ⊆ ({[ key; "warnings" ]} : gset string) /\ is_Some (u !! key).
Proof.
  unfold branch_node.
  destruct (truthy_opt (st !! "error")).
  { intros H; inversion H; subst. rewrite dom_singleton_L, lookup_singleton_eq.
    split; [set_solver|eauto]. }
  destruct (negb (truthy_opt (st !! "working_directory"))).
  { intros H; inversion H; subst. rewrite dom_singleton_L, lookup_singleton_eq.
    split; [set_solver|eauto]. }
  destruct (get_file_list st) as [fl|e]; [|discriminate].
  destruct (negb (truthy fl)).
  { intros H; inversion H; subst. rewrite dom_singleton_L, lookup_singleton_eq.
    split; [set_solver|eauto]. }
  destruct (analyze_directory E n _ fl) as [fs|e].
  { intros H; inversion H; subst. rewrite dom_singleton_L, lookup_singleton_eq.
    split; [set_solver|eauto]. }
  destruct (append_warning st _) as [[w st']|e']; [|discriminate].
  intros H; inversion H; subst. rewrite dom_insert_L, dom_singleton_L, lookup_insert_eq.
  split; [set_solver|eauto].
Qed.

(** X10. Whenever [performance_node] or [style_node] returns, on any
    record and in any environment, the dictionary it returns holds its own
    findings key and, besides it, at most [warnings]: no other key of the
    record is ever written by these two nodes. *)
Theorem sibling_nodes_write_own_keys (E : Env) (n : node) (st u s' : State)
  (evs : list event) :
  n = Performance \/ n = Style ->
  node_fn E n st = (Returned u, s', evs) ->
  dom u ⊆ ({[ findings_key n; "warnings" ]} : gset string) /\
  is_Some (u !! findings_key n).
Proof.
  intros [-> | ->] H; cbn [node_fn findings_key] in *.
  - destruct (performance_node E st) as [o s0] eqn:Hp. inversion H; subst.
    exact (branch_node_dom _ _ _ _ _ _ _ Hp).
  - destruct (style_node E st) as [o s0] eqn:Hp. inversion H; subst.
    exact (branch_node_dom _ _ _ _ _ _ _ Hp).
Qed.

Lemma sibling_nodes_write_own_keys_witness :
  dom ({["style_findings" := JArr []]} : State) ⊆
    ({[ findings_key Style; "warnings" ]} : gset string) /\
  is_Some (({["style_findings" := JArr []]} : State) !! findings_key Style).
Proof.
  apply (sibling_nodes_write_own_keys (sample_env [] all_fine true) Style
           {["error" := JStr "boom"]} {["style_findings" := JArr []]}
           {["error" := JStr "boom"]} []).
  - right. reflexivity.
  - vm_compute. reflexivity.
Defined.

(* ===================================================================== *)
(** ** Whole runs *)

Lemma lookup_after_gate E (input : State) k :
  k <> "error" -> after_gate E input !! k = after_ingestion E input !! k.
Proof.
  intros Hk. unfold after_gate, should_continue_to_agents.
  destruct (router_shares_record E); [|reflexivity].
  destruct (truthy_opt _); [reflexivity|].
  destruct (eq_zero _); cbn [snd]; [|reflexivity].
  by rewrite lookup_insert_ne.
Qed.

Lemma after_gate_well_formed E (input : State) :
  input !! "warnings" = None ->
  after_gate E input !! "warnings" = None /\
  exists ft, after_gate E input !! "file_tree" = Some (JObj ft).
Proof.
  intros Hw. rewrite !lookup_after_gate by discriminate.
  rewrite !lookup_after_ingestion. decide_keys. split; [exact Hw|].
  destruct (ingestor_node_shape E input) as [[_ ->]|(dir & r & wd & -> & _)]; eauto.
Qed.

Lemma run_nodes_branches E (active : list node) (st : State) ft :
  Forall (fun n => n ∈ branches) active ->
  st !! "warnings" = None ->
  st !! "file_tree" = Some (JObj ft) ->
  exists upds,
    run_nodes E active st = (Returned upds, st, map EvStage active) /\
    map fst upds = active.
Proof.
  intros Hact Hw Hft. induction Hact as [|n rest Hn _ IH].
  - exists []. split; reflexivity.
  - destruct IH as (upds & Hrun & Hmap).
    destruct (node_fn_branch_returns E n st ft Hn Hw Hft) as (u & fs & Hfn & _).
    exists ((n, u) :: upds). cbn [run_nodes]. rewrite Hfn, Hrun. cbn [map fst app].
    rewrite Hmap. split; reflexivity.
Qed.

Lemma branches_for_are_branches r : Forall (fun n => n ∈ branches) (branches_for r).
Proof.
  destruct r; cbn [branches_for]; repeat constructor;
    apply (bool_decide_unpack _); vm_compute; exact I.
Qed.

Lemma merge_all_untouched (l : list (node * State)) (st : State) k :
  k <> "warnings" ->
  Forall (fun nu => k ∉ write_keys nu.1) l ->
  merge_all st l !! k = st !! k.
Proof.
  intros Hk Hl. revert st. induction Hl as [|[n u] l Hn _ IH]; intros st; [reflexivity|].
  cbn [merge_all fold_left]. unfold merge_all in IH. rewrite IH.
  rewrite lookup_apply_update_ne, lookup_permitted by exact Hk.
  cbn [fst] in Hn. destruct (decide (k ∈ write_keys n)); [contradiction|reflexivity].
Qed.

Lemma branch_updates_spare (upds : list (node * State)) r k :
  map fst upds = branches_for r ->
  k ∈ ["error"; "final_report"; "report_path"; "output_dir"] ->
  Forall (fun nu => k ∉ write_keys nu.1) upds.
Proof.
  intros Hmap Hk. apply Forall_forall. intros [n u] Hin.
  assert (Hn : n ∈ branches_for r).
  { rewrite <- Hmap. apply list_elem_of_fmap. exists (n, u). split; [reflexivity|exact Hin]. }
  cbn [fst].
  destruct r; cbn [branches_for] in Hn;
  repeat (apply elem_of_cons in Hn as [->|Hn]); try (by apply elem_of_nil in Hn);
  repeat (apply elem_of_cons in Hk as [->|Hk]); try (by apply elem_of_nil in Hk);
  apply (bool_decide_unpack _); vm_compute; exact I.
Qed.

(** The shape of every run from a record without warnings. *)
Lemma invoke_shape E (input : State) :
  input !! "warnings" = None ->
  exists upds,
    map fst upds =
      branches_for (fst (should_continue_to_agents (after_ingestion E input))) /\
    invoke E create_review_graph input =
      (Returned (apply_update (merge_all (after_gate E input) upds)
                   (Aggregator, aggregator_node E (merge_all (after_gate E input) upds))),
       (EvStage Ingestor :: snd (ingestor_node E input)) ++
       map EvStage (branches_for (fst (should_continue_to_agents (after_ingestion E input))))
       ++ [EvStage Aggregator])%list.
Proof.
  intros Hw. destruct (after_gate_well_formed E input Hw) as (Hw2 & ft & Hft).
  destruct (run_nodes_branches E _ _ ft
              (branches_for_are_branches
                 (fst (should_continue_to_agents (after_ingestion E input)))) Hw2 Hft)
    as (upds & Hrun & Hmap).
  exists upds. split; [exact Hmap|].
  rewrite invoke_unfold. cbv zeta. rewrite Hrun. reflexivity.
Qed.

Lemma stages_map_EvStage l : stages (map EvStage l) = l.
Proof. induction l; cbn; congruence. Qed.

(** X11. After ingestion, in every environment and for every input, the
    record holds an inventory whose [total_files] is the number of entries
    of its [files] list; so the gate's test [total_files == 0] holds
    exactly when the analysis nodes would find no file to analyse. *)
Theorem ingestion_counts_files (E : Env) (input : State) :
  exists ft files,
    after_ingestion E input !! "file_tree" = Some (JObj ft) /\
    dict_get ft "files" (JArr []) = JArr files /\
    after_ingestion E input !! "total_files" = Some (JInt (Z.of_nat (List.length files))) /\
    eq_zero (dict_get (after_ingestion E input) "total_files" (JInt 0)) =
      negb (truthy (JArr files)).
Proof.
  unfold dict_get at 2. rewrite !lookup_after_ingestion. decide_keys.
  destruct (ingestor_node_shape E input) as [[-> ->]|(dir & r & wd & -> & -> & _)].
  - exists ∅, []. repeat split.
  - exists (file_tree_of dir r), (scan_files r).
    split; [reflexivity|]. split; [unfold dict_get, file_tree_of; by simplify_map_eq|].
    split; [reflexivity|]. cbn [eq_zero truthy]. destruct (scan_files r); reflexivity.
Qed.

(** X12. Every run from a record without [warnings] returns (no stage
    raises out of the graph, in any environment), and its stages are:
    ingestion first, then each of the branches that the gate and the
    edges select, once, then aggregation. *)
Theorem run_returns_in_stage_order (E : Env) (input : State) :
  input !! "warnings" = None ->
  exists final evs ran,
    invoke E create_review_graph input = (Returned final, evs) /\
    ran ≡ₚ branches_for (fst (should_continue_to_agents (after_ingestion E input))) /\
    stages evs = (Ingestor :: ran ++ [Aggregator])%list.
Proof.
  intros Hw. destruct (invoke_shape E input Hw) as (upds & _ & ->).
  eexists _, _, _. split; [reflexivity|]. split; [reflexivity|].
  cbn [app stages]. rewrite !stages_app, ingestor_no_stage_events, stages_map_EvStage.
  reflexivity.
Qed.

Lemma run_returns_in_stage_order_witness :
  exists final evs ran,
    invoke failing_env create_review_graph remote_input = (Returned final, evs) /\
    ran ≡ₚ branches_for
             (fst (should_continue_to_agents (after_ingestion failing_env remote_input))) /\
    stages evs = (Ingestor :: ran ++ [Aggregator])%list.
Proof. apply run_returns_in_stage_order. vm_compute. reflexivity. Defined.

(** X13. Every run from a record without [warnings] and without
    [final_report] ends with a report or with an error, never with both
    and never with neither: the final record holds [final_report] exactly
    when its [error] is absent or falsy. *)
Theorem run_ends_with_report_or_error (E : Env) (input : State) :
  input !! "warnings" = None ->
  input !! "final_report" = None ->
  exists final evs,
    invoke E create_review_graph input = (Returned final, evs) /\
    (is_Some (final !! "final_report") <-> truthy_opt (final !! "error") = false).
Proof.
  intros Hw Hrep. destruct (invoke_shape E input Hw) as (upds & Hmap & ->).
  eexists _, _. split; [reflexivity|].
  set (st3 := merge_all (after_gate E input) upds).
  assert (Hrep3 : st3 !! "final_report" = None).
  { subst st3. rewrite merge_all_untouched, lookup_after_gate, lookup_after_ingestion
      by (discriminate || (eapply branch_updates_spare; [exact Hmap|set_solver])).
    decide_keys. exact Hrep. }
  rewrite !lookup_apply_update_ne, !lookup_permitted_b by discriminate. decide_keys.
  unfold aggregator_node.
  destruct (truthy_opt (st3 !! "error")) eqn:Herr.
  - rewrite Hrep3.
    destruct (st3 !! "error") as [v|] eqn:Hv; [|discriminate]. cbn [truthy_opt] in *.
    rewrite Herr. split; [intros [x Hx]; discriminate|discriminate].
  - destruct (generate_report E st3 _) as [[content path]|e].
    + rewrite lookup_insert_eq. rewrite lookup_insert_ne, lookup_insert_ne by discriminate.
      destruct (st3 !! "error") as [v|] eqn:Hv; cbn [truthy_opt] in *; split; eauto.
    + rewrite lookup_insert_ne, Hrep3 by discriminate. rewrite lookup_insert_eq.
      cbn [truthy_opt truthy]. split; [intros [x Hx]; discriminate|].
      discriminate.
Qed.

Lemma run_ends_with_report_or_error_witness :
  exists final evs,
    invoke failing_env create_review_graph remote_input = (Returned final, evs) /\
    (is_Some (final !! "final_report") <-> truthy_opt (final !! "error") = false).
Proof.
  apply run_ends_with_report_or_error; vm_compute; reflexivity.
Defined.

Lemma releases_cleanup temps : releases (IngestorAgent.cleanup temps) = temps.
Proof. unfold IngestorAgent.cleanup. induction temps; cbn; congruence. Qed.

